(** * gomvc: provisioning and decommissioning of the MVC skeleton

    A shallow embedding of [gomvc.go].  The program is a sequence of calls
    into the Go standard library ([os.Stat], [os.MkdirAll], [os.Create],
    [os.RemoveAll], ...) around a handful of string templates, so the
    development has three layers:

    - a model of the part of the operating system the program talks to
      (a tree of files and directories, kept as a finite map from paths
      to nodes);
    - the functions of [gomvc.go] ([createDir], [createFile], [setupMVC],
      [deleteMVC]), written in a state-and-error monad over that model,
      and once more with what they print, together with [showHelp] and
      [main] (module [cli]);
    - the properties of those functions. *)

From Stdlib Require Import Ascii.
From stdpp Require Import gmap strings list fin_maps pretty.

(** ** Paths, nodes and errors *)

(** A cleaned absolute path: the list of its segments, outermost first.
    The empty list is the file-system root. *)
Abbreviation path := (list string).

(** A node is a regular file with its bytes, or a directory.  The flag of
    a directory says whether the calling process may create and remove
    entries in it (the write bit of its mode); search permission is taken
    as granted everywhere, files carry no mode, and there are no symbolic
    links. *)
Inductive node : Type :=
  | File (content : string)
  | Dir (writable : bool).

#[global] Instance node_eq_dec : EqDecision node.
Proof. solve_decision. Defined.

(** The file system: every entry by its full path. *)
Abbreviation fs := (gmap path node).

(** The error numbers the modelled system calls can report. *)
Inductive errno : Type :=
  | ENOENT | ENOTDIR | EACCES | EEXIST | EISDIR | ENOTEMPTY | EBADF | EINVAL.

#[global] Instance errno_eq_dec : EqDecision errno.
Proof. solve_decision. Defined.

(** Go [error] values that can reach the program: a [*PathError] of the
    [os] package, the failure of an external command (launch failure or
    non-zero exit), a failed read of standard input, and the message
    built by [fmt.Errorf] around another error. *)
Inductive error : Type :=
  | PathError (op : string) (p : path) (e : errno)
  | ExecError (e : errno)
  | ExitError (code : nat)
  | ReadError
  | Errorf (msg : string) (cause : error).

#[global] Instance error_eq_dec : EqDecision error.
Proof. solve_decision. Defined.

(** The outcome of a call that returns [(value, error)]. *)
Inductive result (A : Type) : Type :=
  | Ok (a : A)
  | Err (e : error).
Arguments Ok {A} a.
Arguments Err {A} e.

#[global] Instance result_eq_dec {A : Type} `{EqDecision A} : EqDecision (result A).
Proof. solve_decision. Defined.

(** [err != nil] *)
Definition failed {A} (r : result A) : bool :=
  match r with Ok _ => false | Err _ => true end.

(** [os.IsNotExist(err)]: true exactly for an error whose number is
    ENOENT; false for [nil] and for every other error. *)
Definition IsNotExist {A} (r : result A) : bool :=
  match r with
  | Err (PathError _ _ ENOENT) => true
  | _ => false
  end.

(** ** The monad of the program: a file system threaded through calls that
    may fail.  A failed call still returns the file system it leaves. *)
Definition M (A : Type) : Type := fs -> fs * result A.

Definition ret {A} (a : A) : M A := fun s => (s, Ok a).

Definition bind {A B} (m : M A) (k : A -> M B) : M B :=
  fun s => match m s with
           | (s', Ok a) => k a s'
           | (s', Err e) => (s', Err e)
           end.

Definition fail {A} (e : error) : M A := fun s => (s, Err e).

(** Run a call and hand its outcome, error included, to the caller. *)
Definition try {A} (m : M A) : M (result A) :=
  fun s => let '(s', r) := m s in (s', Ok r).

Notation "'do' x <- m ; k" := (bind m (fun x => k))
  (at level 10, x name, m at level 100, k at level 200).

(** [for _, x := range l { if err := f(x); err != nil { return err } }] *)
Fixpoint for_each {A} (f : A -> M unit) (l : list A) : M unit :=
  match l with
  | [] => ret tt
  | x :: l' => do _ <- f x; for_each f l'
  end.

(** Hand a [(value, error)] pair that was obtained outside the file system
    to the monad: [if err != nil { return err }]. *)
Definition lift {A} (r : result A) : M A := fun s => (s, r).

(** ** The operating system

    The calls of package [os] the program makes, with the behaviour their
    documentation and POSIX give them on the node tree. *)

(** The directory part of a path: the path without its last segment. *)
Definition dirname (p : path) : path := removelast p.

(** Path resolution from directory [cur] along [rest]: every segment but
    the last must name a directory. *)
Fixpoint walk (s : fs) (cur : path) (rest : list string) : errno + node :=
  match s !! cur with
  | None => inl ENOENT
  | Some n =>
      match rest with
      | [] => inr n
      | x :: rest' =>
          match n with
          | File _ => inl ENOTDIR
          | Dir _ => walk s (cur ++ [x]) rest'
          end
      end
  end.

Definition resolve (s : fs) (p : path) : errno + node := walk s [] p.

(** May the process create or remove the entry [p]?  Its parent must be a
    directory with the write bit; the root has no parent. *)
Definition parent_writable (s : fs) (p : path) : bool :=
  match p with
  | [] => false
  | _ => match s !! dirname p with
         | Some (Dir w) => w
         | _ => false
         end
  end.

(** [os.RemoveAll] can remove the entry [q] when neither [q] nor anything
    below it sits in a directory without the write bit. *)
Definition removable (s : fs) (q : path) : Prop :=
  map_Forall (fun r _ => q `prefix_of` r -> parent_writable s r = true) s.

#[global] Instance removable_dec s q : Decision (removable s q).
Proof. unfold removable. apply _. Defined.

Module os.

(** [os.ModePerm], 0777: the new directory has its write bit. *)
Definition ModePerm : bool := true.

(** [os.Stat(name)] *)
Definition Stat (name : path) : M node := fun s =>
  match resolve s name with
  | inr n => (s, Ok n)
  | inl e => (s, Err (PathError "stat" name e))
  end.

(** The descent of [os.MkdirAll]: [cur] is an existing directory with
    write bit [w]; make the directories of [rest] below it that are
    missing. *)
Fixpoint mkdir_all (s : fs) (cur : path) (w : bool) (rest : list string)
    (perm : bool) : fs * result unit :=
  match rest with
  | [] => (s, Ok tt)
  | x :: rest' =>
      let q := cur ++ [x] in
      match s !! q with
      | Some (Dir w') => mkdir_all s q w' rest' perm
      | Some (File _) => (s, Err (PathError "mkdir" q ENOTDIR))
      | None =>
          if w then mkdir_all (<[q := Dir perm]> s) q perm rest' perm
          else (s, Err (PathError "mkdir" q EACCES))
      end
  end.

(** [os.MkdirAll(path, perm)]: creates the directory and any missing
    parents; a path that is already a directory is left alone. *)
Definition MkdirAll (name : path) (perm : bool) : M unit := fun s =>
  match s !! [] with
  | Some (Dir w) => mkdir_all s [] w name perm
  | Some (File _) => (s, Err (PathError "mkdir" name ENOTDIR))
  | None => (s, Err (PathError "mkdir" name ENOENT))
  end.

(** [os.Create(name)]: open with O_CREATE|O_TRUNC.  The handle is the
    path of the opened file. *)
Definition Create (name : path) : M path := fun s =>
  match resolve s name with
  | inr (File _) => (<[name := File EmptyString]> s, Ok name)
  | inr (Dir _) => (s, Err (PathError "open" name EISDIR))
  | inl ENOENT =>
      match name, resolve s (dirname name) with
      | [], _ => (s, Err (PathError "open" name ENOENT))
      | _, inr (Dir true) => (<[name := File EmptyString]> s, Ok name)
      | _, inr (Dir false) => (s, Err (PathError "open" name EACCES))
      | _, inr (File _) => (s, Err (PathError "open" name ENOTDIR))
      | _, inl e => (s, Err (PathError "open" name e))
      end
  | inl e => (s, Err (PathError "open" name e))
  end.

(** [file.WriteString(s)]: appends at the handle's offset, which is the
    end of the file for the single write the program does. *)
Definition WriteString (file : path) (data : string) : M nat := fun s =>
  match s !! file with
  | Some (File c) => (<[file := File (c +:+ data)]> s, Ok (String.length data))
  | _ => (s, Err (PathError "write" file EBADF))
  end.

(** [file.Close()] *)
Definition Close (file : path) : M unit := ret tt.

(** [os.Remove(name)]: removes the file or the empty directory. *)
Definition Remove (name : path) : M unit := fun s =>
  match resolve s name with
  | inl e => (s, Err (PathError "remove" name e))
  | inr n =>
      if negb (parent_writable s name)
      then (s, Err (PathError "remove" name EACCES))
      else match n with
           | File _ => (delete name s, Ok tt)
           | Dir _ =>
               if decide (filter (fun kv => name `prefix_of` kv.1 /\ kv.1 <> name) s = ∅)
               then (delete name s, Ok tt)
               else (s, Err (PathError "remove" name ENOTEMPTY))
           end
  end.

(** [os.RemoveAll(path)]: removes the path and what it contains, as far
    as it can; a path that does not exist is no error.  It fails when
    the path is still there afterwards. *)
Definition RemoveAll (name : path) : M unit := fun s =>
  let s' := filter (fun kv => ~ (name `prefix_of` kv.1 /\ removable s kv.1)) s in
  match s' !! name with
  | None => (s', Ok tt)
  | Some _ => (s', Err (PathError "unlinkat" name EACCES))
  end.

End os.

(** ** Packages [fmt] and [path/filepath] *)

Definition TAB : ascii := "009"%char.
Definition LF : ascii := "010"%char.
Definition DQ : ascii := "034"%char.

Module fmt.

(** The verbs that print a string argument as it is. *)
Definition plain_verb (v : ascii) : bool :=
  Ascii.eqb v "s" || Ascii.eqb v "v".

(** What [Sprintf] appends for arguments no verb consumed. *)
Definition extra (a : list string) : string :=
  match a with
  | [] => EmptyString
  | x :: a' =>
      "%!(EXTRA string=" +:+ x +:+
      fold_right (fun y acc => ", string=" +:+ y +:+ acc) ")" a'
  end.

(** [fmt.Sprintf(format, a...)] for string arguments and formats
    without flags or widths: [%s] and [%v] print the next argument
    byte for byte, [%%] prints a percent sign, and the rest is
    rendered the way [fmt] reports misuse. *)
Fixpoint Sprintf (format : string) (a : list string) : string :=
  match format with
  | EmptyString => extra a
  | String c rest =>
      if Ascii.eqb c "%" then
        match rest with
        | EmptyString => "%!(NOVERB)" +:+ extra a
        | String v rest' =>
            if Ascii.eqb v "%" then String v (Sprintf rest' a)
            else
              match a with
              | [] => "%!" +:+ String v "(MISSING)" +:+ Sprintf rest' []
              | x :: a' =>
                  if plain_verb v then x +:+ Sprintf rest' a'
                  else "%!" +:+ String v "(string=" +:+ x +:+ ")" +:+ Sprintf rest' a'
              end
        end
      else String c (Sprintf rest a)
  end.

(** The number of arguments a format consumes: its substitution
    points. *)
Fixpoint verbs (format : string) : nat :=
  match format with
  | EmptyString => 0
  | String c rest =>
      if Ascii.eqb c "%" then
        match rest with
        | EmptyString => 0
        | String v rest' =>
            if Ascii.eqb v "%" then verbs rest' else S (verbs rest')
        end
      else verbs rest
  end.

(** [fmt.Errorf(format, err)] with the one verb [%v]. *)
Definition Errorf (format : string) (err : error) : error := Errorf format err.

End fmt.

Module filepath.

(** The segments of a slash-separated element; empty segments vanish,
    as under [filepath.Clean]. *)
Fixpoint segments (s : string) (cur : string) : list string :=
  match s with
  | EmptyString => if decide (cur = EmptyString) then [] else [cur]
  | String c s' =>
      if Ascii.eqb c "/" then
        if decide (cur = EmptyString) then segments s' EmptyString
        else cur :: segments s' EmptyString
      else segments s' (cur +:+ String c EmptyString)
  end.

(** [filepath.Join(root, elem...)] for a cleaned [root] and elements
    without dot segments. *)
Definition Join (root : path) (elem : list string) : path :=
  root ++ concat (map (fun e => segments e EmptyString) elem).

End filepath.

(** Package [strings]: the two searches used to state what a generated
    file contains. *)
Module gostrings.

(** [strings.HasPrefix(s, prefix)] *)
Fixpoint HasPrefix (s prefix : string) {struct prefix} : bool :=
  match prefix, s with
  | EmptyString, _ => true
  | String a prefix', String b s' => Ascii.eqb a b && HasPrefix s' prefix'
  | String _ _, EmptyString => false
  end.

(** [strings.Contains(s, substr)] *)
Fixpoint Contains (s substr : string) : bool :=
  HasPrefix s substr ||
  match s with
  | EmptyString => false
  | String _ s' => Contains s' substr
  end.

(** The number of positions of [s] at which [substr] starts. *)
Fixpoint occurrences (s substr : string) : nat :=
  (if HasPrefix s substr then 1 else 0) +
  match s with
  | EmptyString => 0
  | String _ s' => occurrences s' substr
  end.

End gostrings.

(** ** The templates of [setupMVC] *)

Definition quoted (s : string) : string :=
  String DQ (s +:+ String DQ EmptyString).

Definition indent (s : string) : string := String TAB s.

(** The text of a raw string literal, line by line; every line ends in a
    line feed. *)
Definition lines (l : list string) : string :=
  fold_right (fun x acc => x +:+ String LF acc) EmptyString l.

Definition mainGoFormat : string := lines
  [ "package main";
    "";
    "import (";
    indent (quoted "fmt");
    indent (quoted "github.com/gin-gonic/gin");
    indent (quoted "%s/router");
    ")";
    "";
    "func main() {";
    indent ("fmt.Println(" +:+ quoted "Starting the Gin server..." +:+ ")");
    indent "r := gin.Default()";
    indent "router.InitializeRoutes(r)";
    indent ("r.Run(" +:+ quoted ":8080" +:+ ")");
    "}" ].

Definition mainGoContent (projectName : string) : string :=
  fmt.Sprintf mainGoFormat [projectName].

Definition controllerContent : string := lines
  [ "package controller";
    "";
    "import (";
    indent (quoted "net/http");
    indent (quoted "github.com/gin-gonic/gin");
    ")";
    "";
    "// HomeController handles requests for the home route";
    "func HomeController(c *gin.Context) {";
    indent ("c.JSON(http.StatusOK, gin.H{" +:+ quoted "message" +:+ ": "
            +:+ quoted "Hello from HomeController!" +:+ "})");
    "}" ].

Definition modelContent : string := lines
  [ "package models";
    "";
    "// User represents a sample user model";
    "type User struct {";
    indent ("ID    int    `json:" +:+ quoted "id" +:+ "`");
    indent ("Name  string `json:" +:+ quoted "name" +:+ "`");
    indent ("Email string `json:" +:+ quoted "email" +:+ "`");
    "}" ].

Definition pkgContent : string := lines
  [ "package pkg";
    "";
    "import " +:+ quoted "fmt";
    "";
    "// PrintMessage prints a message to the console";
    "func PrintMessage(msg string) {";
    indent "fmt.Println(msg)";
    "}" ].

Definition routerFormat : string := lines
  [ "package router";
    "";
    "import (";
    indent (quoted "github.com/gin-gonic/gin");
    indent (quoted "%s/controller");
    indent (quoted "%s/middleware");
    ")";
    "";
    "// InitializeRoutes sets up the application's routes";
    "func InitializeRoutes(r *gin.Engine) {";
    indent "r.Use(middleware.RequestLogger())";
    "";
    indent ("r.GET(" +:+ quoted "/" +:+ ", controller.HomeController)");
    "}" ].

Definition routerContent (projectName : string) : string :=
  fmt.Sprintf routerFormat [projectName; projectName].

Definition middlewareContent : string := lines
  [ "package middleware";
    "";
    "import (";
    indent (quoted "fmt");
    indent (quoted "time");
    "";
    indent (quoted "github.com/gin-gonic/gin");
    ")";
    "";
    "// RequestLogger logs each request with method, path, and duration";
    "func RequestLogger() gin.HandlerFunc {";
    indent "return func(c *gin.Context) {";
    indent (indent "startTime := time.Now()");
    indent (indent "c.Next()");
    indent (indent "duration := time.Since(startTime)");
    indent (indent ("fmt.Printf(" +:+ quoted "[%s] %s %s %v\n"
      +:+ ", time.Now().Format(time.RFC3339), c.Request.Method, c.Request.URL.Path, duration)"));
    indent "}";
    "}" ].

(** The two rendered templates, cut at their substitution points. *)
Definition main_head : string :=
  lines [ "package main"; ""; "import ("; indent (quoted "fmt");
          indent (quoted "github.com/gin-gonic/gin") ] +:+ String TAB EmptyString.

Definition main_tail : string :=
  String LF (lines
    [ ")"; ""; "func main() {";
      indent ("fmt.Println(" +:+ quoted "Starting the Gin server..." +:+ ")");
      indent "r := gin.Default()";
      indent "router.InitializeRoutes(r)";
      indent ("r.Run(" +:+ quoted ":8080" +:+ ")");
      "}" ]).

Definition router_head : string :=
  lines [ "package router"; ""; "import ("; indent (quoted "github.com/gin-gonic/gin") ]
  +:+ String TAB EmptyString.

Definition router_tail : string :=
  String LF (lines
    [ ")"; ""; "// InitializeRoutes sets up the application's routes";
      "func InitializeRoutes(r *gin.Engine) {";
      indent "r.Use(middleware.RequestLogger())";
      "";
      indent ("r.GET(" +:+ quoted "/" +:+ ", controller.HomeController)");
      "}" ]).

(** ** The program: [gomvc.go] *)

(** [createDir(path)] *)
Definition createDir (path : path) : M unit :=
  do st <- try (os.Stat path);
  if IsNotExist st then os.MkdirAll path os.ModePerm
  else ret tt.

(** [createFile(path, content)] *)
Definition createFile (path : path) (content : string) : M unit :=
  do st <- try (os.Stat path);
  if IsNotExist st then
    do file <- os.Create path;
    do w <- try (os.WriteString file content);
    do _ <- try (os.Close file);
    match w with
    | Ok _ => ret tt
    | Err e => fail e
    end
  else ret tt.

(** The eight directories of [setupMVC], as the arguments it joins to
    [rootPath]. *)
Definition setup_dirs : list string :=
  ["cmd/api"; "controller"; "models"; "pkg"; "config"; "views"; "router"; "middleware"].

(** The six files of [setupMVC]: the arguments joined to [rootPath] and
    the content, in the order of the calls to [createFile]. *)
Definition setup_files (projectName : string) : list (list string * string) :=
  [ (["cmd/api"; "main.go"], mainGoContent projectName);
    (["controller"; "home_controller.go"], controllerContent);
    (["models"; "user.go"], modelContent);
    (["pkg"; "utility.go"], pkgContent);
    (["router"; "router.go"], routerContent projectName);
    (["middleware"; "request_logger.go"], middlewareContent) ].

(** The top-level names [deleteMVC] removes. *)
Definition delete_dirs : list string :=
  ["cmd"; "controller"; "models"; "pkg"; "config"; "views"; "router"; "middleware"].

Section Program.

(** [strings.TrimSpace] *)
Variable TrimSpace : string -> string.

(** [cmd.Run()] of [exec.Command(argv...)] with [cmd.Dir = dir]: the
    external command, which may change the file system and fail. *)
Variable Run : list string -> path -> M unit.

(** [setupMVC(rootPath)].  [stdin] is what [reader.ReadString] returns
    for the line typed at the prompt. *)
Definition setupMVC (rootPath : path) (stdin : result string) : M unit :=
  do line <- lift stdin;
  let projectName := TrimSpace line in
  do ran <- try (Run ["go"; "mod"; "init"; projectName] rootPath);
  match ran with
  | Err err => fail (fmt.Errorf "failed to initialize go module: %v" err)
  | Ok _ =>
      let dirs := map (fun d => filepath.Join rootPath [d]) setup_dirs in
      do _ <- for_each createDir dirs;
      do _ <- createFile (filepath.Join rootPath ["cmd/api"; "main.go"])
                (mainGoContent projectName);
      do _ <- createFile (filepath.Join rootPath ["controller"; "home_controller.go"])
                controllerContent;
      do _ <- createFile (filepath.Join rootPath ["models"; "user.go"])
                modelContent;
      do _ <- createFile (filepath.Join rootPath ["pkg"; "utility.go"])
                pkgContent;
      do _ <- createFile (filepath.Join rootPath ["router"; "router.go"])
                (routerContent projectName);
      do _ <- createFile (filepath.Join rootPath ["middleware"; "request_logger.go"])
                middlewareContent;
      ret tt
  end.

End Program.

(** [deleteMVC(rootPath)] *)
Definition deleteMVC (rootPath : path) : M unit :=
  do _ <- for_each (fun dir => os.RemoveAll (filepath.Join rootPath [dir])) delete_dirs;
  let goModPath := filepath.Join rootPath ["go.mod"] in
  do st <- try (os.Stat goModPath);
  if failed st then ret tt
  else
    do rm <- try (os.Remove goModPath);
    match rm with
    | Err err => fail (fmt.Errorf "failed to delete go.mod: %v" err)
    | Ok _ => ret tt
    end.

(** The directory loop and the six [createFile] calls. *)
Definition scaffold (rootPath : path) (projectName : string) : M unit :=
  do _ <- for_each createDir (map (fun d => filepath.Join rootPath [d]) setup_dirs);
  for_each (fun f => createFile (filepath.Join rootPath f.1) f.2) (setup_files projectName).

(** The content [setupMVC] renders for the file it joins from [elem]. *)
Definition rendered (projectName : string) (elem : list string) : option string :=
  (list_to_map (setup_files projectName) : gmap (list string) string) !! elem.

(** ** Standard output and the command line

    [main], [showHelp] and the messages [setupMVC] and [deleteMVC]
    print.  A call that may print threads, next to the file system, the
    writes made to standard output so far, oldest first: every call of
    [fmt.Print], [fmt.Println] and [fmt.Printf] is one write. *)
Abbreviation console := (list string).

Definition IO (A : Type) : Type := console -> fs -> console * fs * result A.

Definition io_ret {A} (a : A) : IO A := fun out s => (out, s, Ok a).

Definition io_bind {A B} (m : IO A) (k : A -> IO B) : IO B :=
  fun out s => match m out s with
               | (out', s', Ok a) => k a out' s'
               | (out', s', Err e) => (out', s', Err e)
               end.

Definition io_fail {A} (e : error) : IO A := fun out s => (out, s, Err e).

(** A call that prints nothing. *)
Definition quiet {A} (m : M A) : IO A :=
  fun out s => let '(s', r) := m s in (out, s', r).

(** Run a call and hand its outcome, error included, to the caller. *)
Definition io_try {A} (m : IO A) : IO (result A) :=
  fun out s => let '(out', s', r) := m out s in (out', s', Ok r).

Notation "'io' x <- m ; k" := (io_bind m (fun x => k))
  (at level 10, x name, m at level 100, k at level 200).

(** [fmt.Print], [fmt.Println] and [fmt.Printf] with string arguments. *)
Module stdout.

Definition Print (x : string) : IO unit := fun out s => (out ++ [x], s, Ok tt).

Definition Println (x : string) : IO unit := Print (x +:+ String LF EmptyString).

Definition Printf (format : string) (a : list string) : IO unit :=
  Print (fmt.Sprintf format a).

End stdout.

(** The flags after [flag.Parse()]: [-create], [-delete] and [-h] with
    their defaults. *)
Record flags : Type := Flags {
  createFlag : string;
  deleteFlag : string;
  helpFlag : bool
}.

(** The program as it runs from the command line, with what it prints. *)
Module cli.

(** [showHelp()] *)
Definition showHelp : IO unit :=
  io _ <- stdout.Println "Usage: gomvc [OPTIONS]";
  io _ <- stdout.Println (String LF "Options:");
  io _ <- stdout.Println ("  -create <path>" +:+ String TAB "Create the MVC structure at the specified path");
  io _ <- stdout.Println ("  -delete <path>" +:+ String TAB "Delete the MVC structure at the specified path");
  stdout.Println ("  -h" +:+ String TAB (String TAB (String TAB "Show this help message"))).

(** [deleteMVC(rootPath)] with its message. *)
Definition deleteMVC (rootPath : path) : IO unit :=
  io _ <- quiet (for_each (fun dir => os.RemoveAll (filepath.Join rootPath [dir])) delete_dirs);
  let goModPath := filepath.Join rootPath ["go.mod"] in
  io st <- quiet (try (os.Stat goModPath));
  if failed st then io_ret tt
  else
    io rm <- quiet (try (os.Remove goModPath));
    match rm with
    | Err err => io_fail (fmt.Errorf "failed to delete go.mod: %v" err)
    | Ok _ => stdout.Println "Deleted go.mod file."
    end.

Section Program.

Variable TrimSpace : string -> string.
Variable Run : list string -> path -> M unit.

(** The cleaned absolute path a command-line argument names. *)
Variable locate : string -> path.

(** [err.Error()], the text [%v] prints for an error. *)
Variable Error : error -> string.

(** [setupMVC(rootPath)] with its prompt and message; after the message
    the function prints nothing, it runs the directory loop and the six
    [createFile] calls. *)
Definition setupMVC (rootPath : path) (stdin : result string) : IO unit :=
  io _ <- stdout.Print
            "Enter the project name for Go module initialization (e.g., github.com/username/project): ";
  io line <- quiet (lift stdin);
  let projectName := TrimSpace line in
  io ran <- quiet (try (Run ["go"; "mod"; "init"; projectName] rootPath));
  match ran with
  | Err err => io_fail (fmt.Errorf "failed to initialize go module: %v" err)
  | Ok _ =>
      io _ <- stdout.Printf ("Initialized Go module: %s" +:+ String LF EmptyString) [projectName];
      quiet (scaffold rootPath projectName)
  end.

(** [main()], after [flag.Parse()].  It returns in every case. *)
Definition main (fl : flags) (stdin : result string) : IO unit :=
  if helpFlag fl then showHelp
  else if negb (String.eqb (createFlag fl) EmptyString) then
    io _ <- stdout.Println "Creating MVC structure...";
    io r <- io_try (setupMVC (locate (createFlag fl)) stdin);
    match r with
    | Err err =>
        stdout.Printf ("Error setting up MVC structure: %v" +:+ String LF EmptyString) [Error err]
    | Ok _ => stdout.Println "MVC structure created successfully!"
    end
  else if negb (String.eqb (deleteFlag fl) EmptyString) then
    io _ <- stdout.Println "Deleting MVC structure...";
    io r <- io_try (deleteMVC (locate (deleteFlag fl)));
    match r with
    | Err err =>
        stdout.Printf ("Error deleting MVC structure: %v" +:+ String LF EmptyString) [Error err]
    | Ok _ => stdout.Println "MVC structure deleted successfully!"
    end
  else showHelp.

End Program.

End cli.

(** The five lines of the usage text. *)
Definition usage : console :=
  [ "Usage: gomvc [OPTIONS]" +:+ String LF EmptyString;
    String LF "Options:" +:+ String LF EmptyString;
    "  -create <path>" +:+ String TAB "Create the MVC structure at the specified path"
      +:+ String LF EmptyString;
    "  -delete <path>" +:+ String TAB "Delete the MVC structure at the specified path"
      +:+ String LF EmptyString;
    "  -h" +:+ String TAB (String TAB (String TAB "Show this help message"))
      +:+ String LF EmptyString ].

Definition prompt : string :=
  "Enter the project name for Go module initialization (e.g., github.com/username/project): ".

(** ** A reference environment

    A stand-in for the [go] tool and for [strings.TrimSpace], to run the
    program on concrete file systems. *)

(** [go mod init name] in directory [dir]: needs the directory, refuses
    to overwrite a manifest, and writes [go.mod]. *)
Definition go_tool (argv : list string) (dir : path) : M unit := fun s =>
  match resolve s dir with
  | inr (Dir w) =>
      match argv with
      | [_; _; _; name] =>
          match s !! (dir ++ ["go.mod"]) with
          | Some _ => (s, Err (ExitError 1))
          | None =>
              if w then (<[dir ++ ["go.mod"] := File ("module " +:+ name +:+ String LF EmptyString)]> s, Ok tt)
              else (s, Err (ExitError 1))
          end
      | _ => (s, Err (ExitError 2))
      end
  | inr (File _) => (s, Err (ExecError ENOTDIR))
  | inl e => (s, Err (ExecError e))
  end.

(** The white space of the ASCII range, as [strings.TrimSpace] has it. *)
Definition ascii_space (c : ascii) : bool :=
  let n := nat_of_ascii c in
  (n =? 9)%nat || (n =? 10)%nat || (n =? 11)%nat || (n =? 12)%nat || (n =? 13)%nat || (n =? 32)%nat.

Fixpoint trim_left (s : string) : string :=
  match s with
  | String c s' => if ascii_space c then trim_left s' else s
  | EmptyString => EmptyString
  end.

Fixpoint trim_right (s : string) : string :=
  match s with
  | EmptyString => EmptyString
  | String c s' =>
      match trim_right s' with
      | EmptyString => if ascii_space c then EmptyString else String c EmptyString
      | t => String c t
      end
  end.

(** [strings.TrimSpace] on text without bytes above 127. *)
Definition trim_ascii (s : string) : string := trim_right (trim_left s).

(** A module initialiser that does nothing and succeeds. *)
Definition stub_run (argv : list string) (dir : path) : M unit := ret tt.

(** Path arguments are taken as absolute. *)
Definition absolute (arg : string) : path := filepath.segments arg EmptyString.

Definition errno_text (e : errno) : string :=
  match e with
  | ENOENT => "no such file or directory"
  | ENOTDIR => "not a directory"
  | EACCES => "permission denied"
  | EEXIST => "file exists"
  | EISDIR => "is a directory"
  | ENOTEMPTY => "directory not empty"
  | EBADF => "bad file descriptor"
  | EINVAL => "invalid argument"
  end.

Definition path_text (p : path) : string :=
  fold_right (fun x acc => "/" +:+ x +:+ acc) EmptyString p.

(** The text of an error, after the [Error] methods of [*fs.PathError]
    and [*exec.ExitError]. *)
Fixpoint error_text (e : error) : string :=
  match e with
  | PathError op p e => op +:+ " " +:+ path_text p +:+ ": " +:+ errno_text e
  | ExecError e => "exec: " +:+ errno_text e
  | ExitError code => "exit status " +:+ pretty code
  | ReadError => "EOF"
  | Errorf msg cause => fmt.Sprintf msg [error_text cause]
  end.

(** ** Concrete file systems to run the program on *)

Definition example_root : path := ["tmp"; "p1"].

(** What [reader.ReadString] returns for the typed module path. *)
Definition example_line : string := "example.com/u/p1" +:+ String LF EmptyString.

(** An existing, empty project directory. *)
Definition empty_project : fs :=
  list_to_map [([], Dir true); (["tmp"], Dir true); (["tmp"; "p1"], Dir true)].

(** No project directory yet. *)
Definition no_project : fs :=
  list_to_map [([], Dir true); (["tmp"], Dir true)].

(** A project directory in which the user already keeps a view. *)
Definition project_with_view : fs :=
  <[["tmp"; "p1"; "views"; "index.html"] := File "<h1>hello</h1>"]>
    (<[["tmp"; "p1"; "views"] := Dir true]> empty_project).

(** A project directory in which [cmd] is a regular file. *)
Definition project_with_cmd_file : fs :=
  <[["tmp"; "p1"; "cmd"] := File "#!/bin/sh"]> empty_project.

(** A project directory with an unrelated file next to the skeleton. *)
Definition project_with_notes : fs :=
  <[["tmp"; "p1"; "notes.txt"] := File "todo"]> empty_project.

(** A project directory in which [cmd] is a directory without the write
    bit. *)
Definition project_with_locked_cmd : fs :=
  <[["tmp"; "p1"; "cmd"] := Dir false]> empty_project.

(** The empty project after [setupMVC] with the reference environment. *)
Definition provisioned : fs :=
  (setupMVC trim_ascii go_tool example_root (Ok example_line) empty_project).1.

(** The provisioned project after its directory lost the write bit. *)
Definition locked_project : fs := <[["tmp"; "p1"] := Dir false]> provisioned.

(** The empty project after [go mod init] of the reference environment. *)
Definition initialised : fs :=
  (go_tool ["go"; "mod"; "init"; "example.com/u/p1"] example_root empty_project).1.

(** ** Well-formed file systems

    A finite map is the image of a real directory tree when the root is a
    directory and the parent of every other entry is a directory. *)

Definition is_dir (o : option node) : Prop :=
  match o with
  | Some (Dir _) => True
  | _ => False
  end.

#[global] Instance is_dir_dec o : Decision (is_dir o).
Proof. destruct o as [[c|w]|]; simpl; apply _. Defined.

Definition wf (s : fs) : Prop :=
  is_dir (s !! []) /\ map_Forall (fun p _ => p = [] \/ is_dir (s !! dirname p)) s.

#[global] Instance wf_dec s : Decision (wf s).
Proof. unfold wf. apply _. Defined.

(** What a run may touch, as relations between the file system before and
    after a call. *)

(** Every call of [m] relates the state it starts in to the state it
    leaves, whether it fails or not. *)
Definition steps {A : Type} (R : fs -> fs -> Prop) (m : M A) : Prop :=
  forall s s' r, m s = (s', r) -> R s s'.

(** Only entries satisfying [T] are added, nothing is changed or removed,
    and the tree stays well-formed. *)
Definition grows (T : path -> Prop) (s s' : fs) : Prop :=
  wf s -> wf s' /\ s ⊆ s' /\ forall q, ~ T q -> s' !! q = s !! q.

(** Only entries satisfying [T] are removed, nothing is changed or
    added. *)
Definition shrinks (T : path -> Prop) (s s' : fs) : Prop :=
  s' ⊆ s /\ forall q, ~ T q -> s' !! q = s !! q.

(** The paths [deleteMVC] may remove: what lies at or below one of the
    eight names, and the manifest itself. *)
Definition delete_scope (rootPath : path) (q : path) : Prop :=
  (exists d, d ∈ delete_dirs /\ (rootPath ++ [d]) `prefix_of` q) \/ q = rootPath ++ ["go.mod"].

(** The paths [setupMVC] may create after the module was initialised: the
    root directory and its ancestors, and what lies at or below one of the
    eight names. *)
Definition setup_scope (rootPath : path) (q : path) : Prop :=
  q `prefix_of` rootPath \/ exists d, d ∈ delete_dirs /\ (rootPath ++ [d]) `prefix_of` q.

(** Nothing is added or changed, and the tree stays well-formed. *)
Definition decays (s s' : fs) : Prop := s' ⊆ s /\ (wf s -> wf s').

(** An external command that may add entries but changes and removes
    none: a stub, or a tool that tolerates being run again. *)
Definition only_adds (Run : list string -> path -> M unit) : Prop :=
  forall argv dir, steps (grows (fun _ => True)) (Run argv dir).

(** An external command that, when it succeeds, has changed nothing but
    the manifest [go.mod] of its working directory. *)
Definition writes_manifest_only (Run : list string -> path -> M unit) : Prop :=
  forall argv (dir : path) s s',
    Run argv dir s = (s', Ok tt) -> wf s ->
    wf s' /\ forall q, q <> dir ++ ["go.mod"] -> s' !! q = s !! q.

(** ** Notions for the outcomes of one step *)

(** Some proper ancestor of [p] is a regular file: the case in which
    [os.Stat] of [p] fails with ENOTDIR. *)
Definition file_above (s : fs) (p : path) : Prop :=
  exists (a : path) c, a `prefix_of` p /\ a <> p /\ s !! a = Some (File c).

(** The file system after the directories of [rest] were made one below
    the other, starting in [cur], each with its write bit. *)
Fixpoint make_dirs (s : fs) (cur : path) (rest : list string) : fs :=
  match rest with
  | [] => s
  | x :: rest' => make_dirs (<[cur ++ [x] := Dir true]> s) (cur ++ [x]) rest'
  end.

(** [os.Stat] of [p] does not report that [p] does not exist: the case in
    which [createDir] and [createFile] do nothing. *)
Definition settled (s : fs) (p : path) : Prop := resolve s p <> inl ENOENT.

(** ** The skeleton

    What [setupMVC] makes in a project directory that has none of the eight
    names yet: the entries below the root, in the order they are made. *)
Definition skeleton_entries (projectName : string) : list (path * node) :=
  [ (["cmd"], Dir true);
    (["cmd"; "api"], Dir true);
    (["controller"], Dir true);
    (["models"], Dir true);
    (["pkg"], Dir true);
    (["config"], Dir true);
    (["views"], Dir true);
    (["router"], Dir true);
    (["middleware"], Dir true);
    (["cmd"; "api"; "main.go"], File (mainGoContent projectName));
    (["controller"; "home_controller.go"], File controllerContent);
    (["models"; "user.go"], File modelContent);
    (["pkg"; "utility.go"], File pkgContent);
    (["router"; "router.go"], File (routerContent projectName));
    (["middleware"; "request_logger.go"], File middlewareContent) ].

(** The file system [s] with the skeleton added below [rootPath]. *)
Definition skeleton (rootPath : path) (projectName : string) (s : fs) : fs :=
  foldl (fun acc e => <[rootPath ++ e.1 := e.2]> acc) s (skeleton_entries projectName).

(** Every entry at or below one of the eight names sits in a directory
    with the write bit: nothing stops [os.RemoveAll]. *)
Definition unlocked (rootPath : path) (s : fs) : Prop :=
  map_Forall (fun r _ =>
    Exists (fun d => (rootPath ++ [d]) `prefix_of` r) delete_dirs ->
    parent_writable s r = true) s.

#[global] Instance unlocked_dec rootPath s : Decision (unlocked rootPath s).
Proof. unfold unlocked. apply _. Defined.

(** The manifest can be removed with [os.Remove]: there is none, or the
    project directory has the write bit and nothing lies below the
    manifest. *)
Definition manifest_removable (rootPath : path) (s : fs) : Prop :=
  s !! (rootPath ++ ["go.mod"]) = None \/
  (s !! rootPath = Some (Dir true) /\
   map_Forall (fun q _ => (rootPath ++ ["go.mod"]) `prefix_of` q -> q = rootPath ++ ["go.mod"]) s).

#[global] Instance manifest_removable_dec rootPath s : Decision (manifest_removable rootPath s).
Proof. unfold manifest_removable. apply _. Defined.

(** Whatever is new in [s'] is a directory with the write bit. *)
Definition adds_dirs (s s' : fs) : Prop :=
  forall (q : path) n, s' !! q = Some n -> s !! q = Some n \/ n = Dir true.

(** The package a generated file has to declare: [main] for the entry
    point, otherwise the name of its directory. *)
Definition package_of (elem : list string) : string :=
  match elem with
  | [dir; _] => if String.eqb dir "cmd/api" then "main" else dir
  | _ => EmptyString
  end.

(** A closed, decidable statement is proved by running its decision
    procedure. *)
Ltac by_running :=
  lazymatch goal with
  | |- ?P =>
      let D := constr:(_ : Decision P) in
      apply (@bool_decide_eq_true_1 P D); vm_compute; reflexivity
  end.

(** ** Facts about the model *)

Lemma is_dir_Some o : is_dir o -> exists w, o = Some (Dir w).
Proof. destruct o as [[c|w]|]; simpl; try tauto. eauto. Qed.

Lemma dirname_snoc (p : path) x : dirname (p ++ [x]) = p.
Proof. apply removelast_last. Qed.

Lemma wf_root s : wf s -> is_dir (s !! []).
Proof. intros [H _]. exact H. Qed.

Lemma wf_snoc s (p : path) x n :
  wf s -> s !! (p ++ [x]) = Some n -> is_dir (s !! p).
Proof.
  intros [_ H] Hn. specialize (H _ _ Hn). simpl in H.
  destruct H as [H|H].
  - destruct p; discriminate.
  - by rewrite dirname_snoc in H.
Qed.

(** Every proper ancestor of an entry is a directory. *)
Lemma wf_ancestor s (p k : path) n :
  wf s -> s !! (p ++ k) = Some n -> k <> [] -> is_dir (s !! p).
Proof.
  intros Hwf. revert n. induction k as [|x k IH] using rev_ind; intros n Hn Hk.
  - done.
  - rewrite app_assoc in Hn. pose proof (wf_snoc _ _ _ _ Hwf Hn) as Hd.
    destruct k as [|y k].
    + by rewrite app_nil_r in Hd.
    + apply is_dir_Some in Hd as [w Hw]. by eapply IH.
Qed.

(** Nothing lies below a path that does not exist. *)
Lemma wf_below s (p q : path) :
  wf s -> s !! p = None -> p `prefix_of` q -> s !! q = None.
Proof.
  intros Hwf Hp [k ->]. destruct k as [|x k].
  - by rewrite app_nil_r.
  - destruct (s !! (p ++ x :: k)) as [n|] eqn:Hq; [|done].
    apply wf_ancestor in Hq; [|done..]. rewrite Hp in Hq. done.
Qed.

Lemma walk_inr s cur rest n :
  walk s cur rest = inr n -> s !! (cur ++ rest) = Some n.
Proof.
  revert cur. induction rest as [|x rest IH]; intros cur; simpl.
  - rewrite app_nil_r. destruct (s !! cur); congruence.
  - destruct (s !! cur) as [[c|w]|]; try discriminate.
    intros H. apply IH in H. by rewrite <- app_assoc in H.
Qed.

Lemma walk_complete s cur rest n :
  wf s -> s !! (cur ++ rest) = Some n -> walk s cur rest = inr n.
Proof.
  intros Hwf. revert cur. induction rest as [|x rest IH]; intros cur Hn; simpl.
  - rewrite app_nil_r in Hn. by rewrite Hn.
  - pose proof (wf_ancestor _ _ _ _ Hwf Hn) as Hd.
    apply is_dir_Some in Hd as [w Hw]; [|done]. rewrite Hw.
    apply IH. by rewrite <- app_assoc.
Qed.

(** On a well-formed tree path resolution finds exactly the entries of
    the map. *)
Lemma resolve_inr s p n : wf s -> resolve s p = inr n <-> s !! p = Some n.
Proof.
  intros Hwf. split.
  - apply walk_inr.
  - apply (walk_complete s [] p n Hwf).
Qed.

Lemma resolve_inl s p e : wf s -> resolve s p = inl e -> s !! p = None.
Proof.
  intros Hwf He. destruct (s !! p) as [n|] eqn:Hn; [|done].
  apply resolve_inr in Hn; [|done]. congruence.
Qed.

Lemma resolve_None s p : wf s -> s !! p = None -> exists e, resolve s p = inl e.
Proof.
  intros Hwf Hn. destruct (resolve s p) as [e|n] eqn:Hr; [eauto|].
  apply resolve_inr in Hr; [|done]. congruence.
Qed.

Lemma dirname_ne (q : path) : q <> [] -> dirname q <> q.
Proof.
  intros Hq Heq. pose proof (app_removelast_last EmptyString Hq) as H.
  unfold dirname in Heq. rewrite Heq in H.
  apply (f_equal length) in H. rewrite length_app in H. simpl in H. lia.
Qed.

Lemma dirname_prefix (p : path) : p <> [] -> exists x, p = dirname p ++ [x].
Proof. intros Hp. eexists. apply (app_removelast_last EmptyString Hp). Qed.

Lemma wf_insert_fresh s (q : path) n :
  wf s -> s !! q = None -> q <> [] -> is_dir (s !! dirname q) ->
  wf (<[q := n]> s).
Proof.
  intros Hwf Hq Hne Hd. split.
  - rewrite lookup_insert_ne; [by apply wf_root | done].
  - intros p m Hp. simpl. apply lookup_insert_Some in Hp as [[<- <-]|[Hpq Hp]].
    + right. rewrite lookup_insert_ne; [done | by apply not_eq_sym, dirname_ne].
    + destruct Hwf as [_ H]. destruct (H _ _ Hp) as [->|Hd']; [by left|right].
      rewrite lookup_insert_ne; [done|]. intros Heq. rewrite <- Heq, Hq in Hd'. done.
Qed.

Lemma wf_insert_file s (q : path) c c' :
  wf s -> s !! q = Some (File c) -> wf (<[q := File c']> s).
Proof.
  intros Hwf Hq.
  assert (Hne : q <> []).
  { intros ->. apply wf_root in Hwf. by rewrite Hq in Hwf. }
  split.
  - rewrite lookup_insert_ne; [by apply wf_root | done].
  - intros p m Hp. simpl. destruct Hwf as [_ H].
    apply lookup_insert_Some in Hp as [[<- <-]|[Hpq Hp]].
    + right. rewrite lookup_insert_ne; [|by apply not_eq_sym, dirname_ne].
      destruct (H _ _ Hq) as [?|?]; done.
    + destruct (H _ _ Hp) as [->|Hd']; [by left|right].
      rewrite lookup_insert_ne; [done|]. intros Heq. rewrite <- Heq, Hq in Hd'. done.
Qed.

(** Removing an entry without children keeps the tree well-formed. *)
Lemma wf_delete_leaf s (q : path) :
  wf s -> q <> [] ->
  (forall (p : path) n, s !! p = Some n -> p <> [] -> dirname p <> q) ->
  wf (delete q s).
Proof.
  intros Hwf Hne Hleaf. split.
  - rewrite lookup_delete_ne; [by apply wf_root | done].
  - intros p m Hp. simpl. apply lookup_delete_Some in Hp as [Hpq Hp].
    destruct Hwf as [_ H]. destruct (H _ _ Hp) as [->|Hd']; [by left|right].
    destruct (decide (p = [])) as [->|Hp0].
    + simpl in *. rewrite lookup_delete_ne; done.
    + rewrite lookup_delete_ne; [done|]. apply not_eq_sym. by eapply Hleaf.
Qed.

(** *** The relations are preorders, and the monad respects them *)

#[global] Instance grows_refl T : Reflexive (grows T).
Proof. intros s Hwf. done. Qed.

#[global] Instance grows_trans T : Transitive (grows T).
Proof.
  intros s1 s2 s3 H12 H23 Hwf.
  destruct (H12 Hwf) as (Hwf2 & Hsub12 & Hfr12).
  destruct (H23 Hwf2) as (Hwf3 & Hsub23 & Hfr23).
  split; [done|]. split; [by etrans|].
  intros q Hq. rewrite Hfr23, Hfr12; done.
Qed.

Lemma grows_mono (T T' : path -> Prop) s s' :
  (forall q, T q -> T' q) -> grows T s s' -> grows T' s s'.
Proof.
  intros HT H Hwf. destruct (H Hwf) as (? & ? & Hfr).
  split; [done|]. split; [done|]. intros q Hq. apply Hfr. intros Hq'. by apply Hq, HT.
Qed.

#[global] Instance shrinks_refl T : Reflexive (shrinks T).
Proof. intros s. split; done. Qed.

#[global] Instance shrinks_trans T : Transitive (shrinks T).
Proof.
  intros s1 s2 s3 [Hsub12 Hfr12] [Hsub23 Hfr23]. split; [by etrans|].
  intros q Hq. rewrite Hfr23, Hfr12; done.
Qed.

Lemma shrinks_mono (T T' : path -> Prop) s s' :
  (forall q, T q -> T' q) -> shrinks T s s' -> shrinks T' s s'.
Proof.
  intros HT [? Hfr]. split; [done|]. intros q Hq. apply Hfr. intros Hq'. by apply Hq, HT.
Qed.

Section Steps.
Context {R : fs -> fs -> Prop} `{!Reflexive R, !Transitive R}.

Lemma steps_ret {A} (a : A) : steps R (ret a).
Proof. intros s s' r [= <- _]. reflexivity. Qed.

Lemma steps_fail {A} e : steps R (@fail A e).
Proof. intros s s' r [= <- _]. reflexivity. Qed.

Lemma steps_lift {A} (x : result A) : steps R (lift x).
Proof. intros s s' r [= <- _]. reflexivity. Qed.

Lemma steps_try {A} (m : M A) : steps R m -> steps R (try m).
Proof.
  intros Hm s s' r. unfold try. destruct (m s) as [s1 r1] eqn:E.
  intros [= <- _]. by eapply Hm.
Qed.

Lemma steps_bind {A B} (m : M A) (k : A -> M B) :
  steps R m -> (forall a, steps R (k a)) -> steps R (bind m k).
Proof.
  intros Hm Hk s s' r. unfold bind. destruct (m s) as [s1 [a|e]] eqn:E.
  - intros H. etrans; [by eapply Hm | by eapply Hk].
  - intros [= <- _]. by eapply Hm.
Qed.

Lemma steps_for_each {A} (f : A -> M unit) l :
  (forall x, x ∈ l -> steps R (f x)) -> steps R (for_each f l).
Proof.
  induction l as [|x l IH]; intros Hf; simpl.
  - apply steps_ret.
  - apply steps_bind.
    + apply Hf. left.
    + intros _. apply IH. intros y Hy. apply Hf. by right.
Qed.
End Steps.

Lemma steps_weaken {A : Type} (R R' : fs -> fs -> Prop) (m : M A) :
  (forall s s', R s s' -> R' s s') -> steps R m -> steps R' m.
Proof. intros HR Hm s s' r E. apply HR. by eapply Hm. Qed.

#[global] Instance decays_refl : Reflexive decays.
Proof. intros s. split; done. Qed.

#[global] Instance decays_trans : Transitive decays.
Proof. intros s1 s2 s3 [? ?] [? ?]. split; [by etrans | auto]. Qed.

(** *** The system calls *)

Lemma Stat_steps (R : fs -> fs -> Prop) `{!Reflexive R} name : steps R (os.Stat name).
Proof.
  intros s s' r. unfold os.Stat. destruct (resolve s name); intros [= <- _]; reflexivity.
Qed.

Lemma mkdir_all_grows rest : forall s cur w perm s' r,
  os.mkdir_all s cur w rest perm = (s', r) ->
  wf s -> s !! cur = Some (Dir w) ->
  wf s' /\ s ⊆ s' /\ forall q, ~ q `prefix_of` (cur ++ rest) -> s' !! q = s !! q.
Proof.
  induction rest as [|x rest IH]; intros s cur w perm s' r; simpl.
  - intros [= <- _] Hwf Hcur. done.
  - intros E Hwf Hcur. rewrite (cons_middle x cur rest), app_assoc.
    destruct (s !! (cur ++ [x])) as [[c|w']|] eqn:Hq.
    + injection E as <- _. done.
    + by eapply IH.
    + destruct w.
      * assert (Hwf1 : wf (<[cur ++ [x] := Dir perm]> s)).
        { apply wf_insert_fresh; [done..| by destruct cur |].
          by rewrite dirname_snoc, Hcur. }
        destruct (IH _ _ _ _ _ _ E Hwf1) as (Hwf' & Hsub & Hfr).
        { by rewrite lookup_insert_eq. }
        split; [done|]. split.
        -- etrans; [|done]. by apply insert_subseteq.
        -- intros q Hnq. rewrite Hfr by done. apply lookup_insert_ne.
           intros <-. apply Hnq. by apply prefix_app_r.
      * injection E as <- _. done.
Qed.

Lemma MkdirAll_grows name perm :
  steps (grows (fun q => q `prefix_of` name)) (os.MkdirAll name perm).
Proof.
  intros s s' r E Hwf. unfold os.MkdirAll in E.
  destruct (s !! []) as [[c|w]|] eqn:Hroot; try (injection E as <- _; done).
  by eapply (mkdir_all_grows name s []).
Qed.

Lemma RemoveAll_shrinks name :
  steps (shrinks (fun q => name `prefix_of` q)) (os.RemoveAll name).
Proof.
  intros s s' r E. unfold os.RemoveAll in E.
  set (s1 := filter _ s) in E.
  assert (Hs' : s' = s1) by (destruct (s1 !! name); by injection E). subst s'.
  split.
  - apply map_filter_subseteq.
  - intros q Hq. destruct (s !! q) as [n|] eqn:Hn.
    + apply map_lookup_filter_Some. split; [done|]. simpl. tauto.
    + apply map_lookup_filter_None. by left.
Qed.

Lemma RemoveAll_wf name s s' r :
  os.RemoveAll name s = (s', r) -> wf s -> wf s'.
Proof.
  intros E Hwf. unfold os.RemoveAll in E.
  set (s1 := filter _ s) in E.
  assert (Hs' : s' = s1) by (destruct (s1 !! name); by injection E). subst s'.
  clear E. split.
  - apply wf_root, is_dir_Some in Hwf as [w Hw].
    assert (Hk : s1 !! [] = Some (Dir w)); [|by rewrite Hk].
    apply map_lookup_filter_Some. split; [done|]. simpl. intros [_ Hrm].
    pose proof (Hrm _ _ Hw (reflexivity _)) as Hf. simpl in Hf. discriminate.
  - intros p n Hp. simpl. apply map_lookup_filter_Some in Hp as [Hp Hkeep]. simpl in Hkeep.
    destruct (decide (p = [])) as [->|Hp0]; [by left|right].
    destruct Hwf as [_ H]. destruct (H _ _ Hp) as [?|Hd]; [done|].
    apply is_dir_Some in Hd as [w Hw].
    assert (Hk : s1 !! dirname p = Some (Dir w)); [|by rewrite Hk].
    apply map_lookup_filter_Some. split; [done|]. simpl. intros [Hpre Hrm]. apply Hkeep.
    destruct (dirname_prefix p Hp0) as [x Hx].
    assert (Hdp : dirname p `prefix_of` p) by (exists [x]; done).
    split; [by etrans|].
    intros t m Ht Hpt. apply (Hrm t m Ht). by etrans.
Qed.

Lemma RemoveAll_decays name : steps decays (os.RemoveAll name).
Proof.
  intros s s' r E. split.
  - by apply (RemoveAll_shrinks name s s' r).
  - by eapply RemoveAll_wf.
Qed.

(** A successful [os.RemoveAll] leaves nothing at or below the path. *)
Lemma RemoveAll_Ok name s s' (q : path) :
  wf s -> os.RemoveAll name s = (s', Ok tt) -> name `prefix_of` q -> s' !! q = None.
Proof.
  intros Hwf E Hq. eapply wf_below; [by eapply RemoveAll_wf| |done].
  unfold os.RemoveAll in E. destruct (filter _ s !! name) eqn:Hn; [done|].
  injection E as <-. done.
Qed.

(** Removing a path that does not exist changes nothing and succeeds. *)
Lemma RemoveAll_absent name s :
  wf s -> s !! name = None -> os.RemoveAll name s = (s, Ok tt).
Proof.
  intros Hwf Hn. unfold os.RemoveAll.
  rewrite map_filter_id.
  - by rewrite Hn.
  - intros q n Hq. simpl. intros [Hpre _].
    rewrite (wf_below _ _ _ Hwf Hn Hpre) in Hq. done.
Qed.

Lemma Remove_shrinks name : steps (shrinks (fun q => q = name)) (os.Remove name).
Proof.
  intros s s' r. unfold os.Remove.
  assert (Hdel : shrinks (fun q => q = name) s (delete name s)).
  { split; [apply delete_subseteq|]. intros q Hq. apply lookup_delete_ne. congruence. }
  destruct (resolve s name) as [e|n]; [intros [= <- _]; reflexivity|].
  destruct (negb (parent_writable s name)); [intros [= <- _]; reflexivity|].
  destruct n as [c|w]; [by intros [= <- _]|].
  destruct (decide (filter _ s = ∅)); intros [= <- _]; [done | reflexivity].
Qed.

Lemma Remove_wf name s s' r : os.Remove name s = (s', r) -> wf s -> wf s'.
Proof.
  unfold os.Remove. intros E Hwf.
  destruct (resolve s name) as [e|n] eqn:Hr; [by injection E as <- _|].
  destruct (parent_writable s name) eqn:Hpw; simpl in E; [|by injection E as <- _].
  assert (Hne : name <> []) by (intros ->; done).
  apply resolve_inr in Hr; [|done].
  assert (Hleaf : (forall (p : path) m, s !! p = Some m -> p <> [] -> dirname p <> name) -> wf s').
  { intros Hleaf. destruct n as [c|w].
    - injection E as <- _. by apply wf_delete_leaf.
    - destruct (decide (filter _ s = ∅)); injection E as <- _; [by apply wf_delete_leaf | done]. }
  destruct n as [c|w].
  - apply Hleaf. intros p m Hp Hp0 Hd.
    destruct (dirname_prefix p Hp0) as [x Hx]. rewrite Hd in Hx. rewrite Hx in Hp.
    apply (wf_snoc _ _ _ _ Hwf) in Hp. by rewrite Hr in Hp.
  - destruct (decide (filter _ s = ∅)) as [He|He]; [|by injection E as <- _].
    apply Hleaf. intros p m Hp Hp0 Hd.
    eapply (map_filter_empty_not_lookup _ _ p m He); [|done]. simpl.
    destruct (dirname_prefix p Hp0) as [x Hx]. rewrite Hd in Hx. split.
    + by exists [x].
    + intros Heq. apply (dirname_ne p Hp0). congruence.
Qed.

Lemma Remove_decays name : steps decays (os.Remove name).
Proof.
  intros s s' r E. split.
  - by apply (Remove_shrinks name s s' r).
  - by eapply Remove_wf.
Qed.

Lemma Remove_Ok name s s' : os.Remove name s = (s', Ok tt) -> s' !! name = None.
Proof.
  unfold os.Remove.
  destruct (resolve s name) as [e|n]; [done|].
  destruct (negb (parent_writable s name)); [done|].
  destruct n as [c|w].
  - intros [= <-]. apply lookup_delete_eq.
  - destruct (decide (filter _ s = ∅)); [|done]. intros [= <-]. apply lookup_delete_eq.
Qed.

(** *** [createDir] and [createFile] *)

Lemma createDir_grows p : steps (grows (fun q => q `prefix_of` p)) (createDir p).
Proof.
  unfold createDir. apply steps_bind.
  - apply steps_try, Stat_steps; apply _.
  - intros st. destruct (IsNotExist st); [apply MkdirAll_grows | apply steps_ret].
Qed.


(** [createFile] either leaves the file system as it is, or adds the file
    with the content at a path where nothing was. *)
Lemma createFile_cases (p : path) c s s' r :
  wf s -> createFile p c s = (s', r) ->
  s' = s \/
  (s !! p = None /\ p <> [] /\ is_dir (s !! dirname p) /\
   s' = <[p := File c]> s /\ r = Ok tt).
Proof.
  intros Hwf. unfold createFile, bind, try, os.Stat.
  destruct (resolve s p) as [e|n] eqn:Hr; simpl.
  2: { intros [= <- _]. by left. }
  pose proof (resolve_inl _ _ _ Hwf Hr) as Hnone.
  destruct e; simpl; try (intros [= <- _]; by left).
  unfold os.Create. rewrite Hr.
  destruct p as [|x p']; [intros [= <- _]; by left|].
  set (p := x :: p') in *.
  destruct (resolve s (dirname p)) as [e|[c'|[|]]] eqn:Hd;
    try (intros [= <- _]; by left).
  unfold os.WriteString, os.Close, ret, fail. rewrite lookup_insert_eq. simpl.
  rewrite insert_insert_eq. intros [= <- <-]. right.
  apply resolve_inr in Hd; [|done].
  split; [done|]. split; [done|]. split; [|done].
  change (is_dir (s !! dirname p)). by rewrite Hd.
Qed.

Lemma createFile_grows p c : steps (grows (fun q => q = p)) (createFile p c).
Proof.
  intros s s' r E Hwf.
  destruct (createFile_cases _ _ _ _ _ Hwf E) as [->|(Hn & Hp & Hd & -> & _)]; [done|].
  split; [by apply wf_insert_fresh|]. split; [by apply insert_subseteq|].
  intros q Hq. apply lookup_insert_ne. congruence.
Qed.


(** *** Joined paths *)

Lemma Join_delete_dir (rootPath : path) d :
  d ∈ delete_dirs -> filepath.Join rootPath [d] = rootPath ++ [d].
Proof.
  unfold delete_dirs. rewrite !elem_of_cons, elem_of_nil.
  intros H. repeat (destruct H as [->|H]; [reflexivity|]). done.
Qed.

Lemma Join_go_mod (rootPath : path) :
  filepath.Join rootPath ["go.mod"] = rootPath ++ ["go.mod"].
Proof. reflexivity. Qed.

(** Every directory of [setupMVC] lies at or below one of the eight
    top-level names. *)
Lemma Join_setup_dir (rootPath : path) d :
  d ∈ setup_dirs ->
  exists t k, t ∈ delete_dirs /\ filepath.Join rootPath [d] = rootPath ++ t :: k.
Proof.
  unfold setup_dirs. rewrite !elem_of_cons, elem_of_nil. intros H.
  repeat (destruct H as [->|H];
    [eexists _, _; split; [|reflexivity]; unfold delete_dirs; set_solver|]).
  done.
Qed.

Lemma prefix_snoc_cases (rootPath q : path) t k :
  q `prefix_of` (rootPath ++ t :: k) ->
  q `prefix_of` rootPath \/ (rootPath ++ [t]) `prefix_of` q.
Proof.
  intros Hq.
  assert (Hr : rootPath `prefix_of` rootPath ++ t :: k) by (by exists (t :: k)).
  destruct (prefix_weak_total _ _ _ Hq Hr) as [?|[j Hj]]; [by left|].
  destruct j as [|y j]; [left; by rewrite Hj, app_nil_r|]. right.
  destruct Hq as [j' Hq]. rewrite Hj, <- app_assoc in Hq.
  apply app_inv_head in Hq. simpl in Hq. injection Hq as -> _.
  exists j. rewrite Hj, <- app_assoc. done.
Qed.

Lemma Join_setup_file (rootPath : path) projectName elem content :
  (elem, content) ∈ setup_files projectName ->
  exists t k, t ∈ delete_dirs /\ filepath.Join rootPath elem = rootPath ++ t :: k.
Proof.
  unfold setup_files. rewrite !elem_of_cons, elem_of_nil. intros H.
  repeat (destruct H as [[= -> _]|H];
    [eexists _, _; split; [|reflexivity]; unfold delete_dirs; set_solver|]).
  done.
Qed.

(** *** [setupMVC] after the module was initialised *)

Lemma setupMVC_unfold TrimSpace Run rootPath line s :
  setupMVC TrimSpace Run rootPath (Ok line) s =
  match Run ["go"; "mod"; "init"; TrimSpace line] rootPath s with
  | (s1, Ok _) => scaffold rootPath (TrimSpace line) s1
  | (s1, Err err) => (s1, Err (fmt.Errorf "failed to initialize go module: %v" err))
  end.
Proof.
  unfold setupMVC, scaffold, setup_files, bind, lift, try.
  destruct (Run _ rootPath s) as [s1 [[]|err]]; [|done].
  cbn [for_each fst snd]. unfold bind. reflexivity.
Qed.

Lemma setupMVC_read_error TrimSpace Run rootPath e s :
  setupMVC TrimSpace Run rootPath (Err e) s = (s, Err e).
Proof. reflexivity. Qed.

Lemma scaffold_grows rootPath projectName :
  steps (grows (setup_scope rootPath)) (scaffold rootPath projectName).
Proof.
  unfold scaffold. apply steps_bind; [|intros _]; apply steps_for_each.
  - intros p Hp. apply list_elem_of_In, in_map_iff in Hp as (d & <- & Hd).
    apply list_elem_of_In in Hd.
    destruct (Join_setup_dir rootPath d Hd) as (t & k & Ht & ->).
    eapply steps_weaken; [|apply createDir_grows].
    intros s s'. apply grows_mono. intros q Hq.
    destruct (prefix_snoc_cases _ _ _ _ Hq); [by left | right; eauto].
  - intros [elem content] Hf. simpl.
    destruct (Join_setup_file rootPath _ _ _ Hf) as (t & k & Ht & ->).
    eapply steps_weaken; [|apply createFile_grows].
    intros s s'. apply grows_mono. intros q ->. right.
    exists t. split; [done|]. exists k. by rewrite <- app_assoc.
Qed.

(** *** [deleteMVC] *)

Lemma deleteMVC_shrinks rootPath :
  steps (shrinks (delete_scope rootPath)) (deleteMVC rootPath).
Proof.
  unfold deleteMVC. apply steps_bind.
  - apply steps_for_each. intros d Hd. rewrite (Join_delete_dir _ _ Hd).
    eapply steps_weaken; [|apply RemoveAll_shrinks].
    intros s s'. apply shrinks_mono. intros q Hq. left. eauto.
  - intros _. apply steps_bind; [apply steps_try, Stat_steps; apply _|].
    intros st. destruct (failed st); [apply steps_ret|].
    apply steps_bind.
    + apply steps_try. eapply steps_weaken; [|apply Remove_shrinks].
      intros s s'. apply shrinks_mono. intros q ->. by right.
    + intros [|]; [apply steps_ret | apply steps_fail].
Qed.

Lemma deleteMVC_decays rootPath : steps decays (deleteMVC rootPath).
Proof.
  unfold deleteMVC. apply steps_bind.
  - apply steps_for_each. intros d Hd. apply RemoveAll_decays.
  - intros _. apply steps_bind; [apply steps_try, Stat_steps; apply _|].
    intros st. destruct (failed st); [apply steps_ret|].
    apply steps_bind.
    + apply steps_try, Remove_decays.
    + intros [|]; [apply steps_ret | apply steps_fail].
Qed.

(** A loop that succeeded ran its body with success on every element,
    between states related to the first and the last. *)
Lemma for_each_Ok (R : fs -> fs -> Prop) `{!Reflexive R, !Transitive R}
    {A : Type} (f : A -> M unit) l :
  (forall x, steps R (f x)) ->
  forall s s', for_each f l s = (s', Ok tt) ->
  forall x, x ∈ l -> exists s1 s2, R s s1 /\ f x s1 = (s2, Ok tt) /\ R s2 s'.
Proof.
  intros Hf. induction l as [|y l IH]; intros s s' E x Hx.
  - by apply elem_of_nil in Hx.
  - simpl in E. unfold bind in E. destruct (f y s) as [sy [[]|e]] eqn:Ey; [|done].
    assert (Hrest : steps R (for_each f l)) by (apply steps_for_each; auto).
    apply elem_of_cons in Hx as [->|Hx].
    + exists s, sy. split; [reflexivity|]. split; [done|]. by eapply Hrest.
    + destruct (IH _ _ E x Hx) as (s1 & s2 & H1 & H2 & H3).
      exists s1, s2. split; [|done]. etrans; [|done]. by eapply Hf.
Qed.

Lemma for_each_id {A : Type} (f : A -> M unit) l s :
  (forall x, x ∈ l -> f x s = (s, Ok tt)) -> for_each f l s = (s, Ok tt).
Proof.
  induction l as [|y l IH]; intros Hf; simpl; [done|].
  unfold bind. rewrite Hf by left. apply IH. intros x Hx. apply Hf. by right.
Qed.

(** After a successful [deleteMVC] nothing is left at or below the eight
    names, and no manifest. *)
Lemma deleteMVC_Ok rootPath s s' :
  wf s -> deleteMVC rootPath s = (s', Ok tt) ->
  wf s' /\
  (forall d (q : path), d ∈ delete_dirs -> (rootPath ++ [d]) `prefix_of` q -> s' !! q = None) /\
  s' !! (rootPath ++ ["go.mod"]) = None.
Proof.
  intros Hwf E.
  pose proof (deleteMVC_decays rootPath s s' _ E) as [_ Hwf'].
  split; [auto|]. revert E. unfold deleteMVC at 1, bind.
  destruct (for_each _ delete_dirs s) as [s1 [[]|e]] eqn:Eloop; [|done].
  assert (Hd1 : decays s s1).
  { eapply (steps_for_each (R := decays)); [|done]. intros; apply RemoveAll_decays. }
  intros Etail.
  assert (Hd2 : decays s1 s').
  { revert Etail. rewrite Join_go_mod. unfold try, os.Stat.
    destruct (resolve s1 _) as [e|n]; simpl; [by intros [= <-]|].
    destruct (os.Remove _ s1) as [s2 [[]|e]] eqn:Erm; simpl; intros [= <-].
    by eapply Remove_decays. }
  split.
  - intros d q Hd Hq.
    destruct (for_each_Ok decays _ _ (fun x => RemoveAll_decays _) _ _ Eloop d Hd)
      as (sa & sb & Ha & Hrm & Hb).
    rewrite (Join_delete_dir _ _ Hd) in Hrm.
    assert (Hnone : sb !! q = None).
    { eapply RemoveAll_Ok; [|done..]. by apply Ha. }
    assert (Hsub : s' ⊆ sb) by (etrans; [apply Hd2 | apply Hb]).
    destruct (s' !! q) as [n|] eqn:Hq'; [|done].
    eapply lookup_weaken in Hq'; [|done]. congruence.
  - revert Etail. rewrite Join_go_mod. unfold try, os.Stat.
    destruct (resolve s1 _) as [e|n] eqn:Hr; simpl.
    + intros [= <-]. eapply resolve_inl; [|done]. by apply Hd1.
    + destruct (os.Remove _ s1) as [s2 [[]|e]] eqn:Erm; simpl; intros [= <-].
      by eapply Remove_Ok.
Qed.

(** With nothing to delete, [deleteMVC] succeeds and changes nothing. *)
Lemma deleteMVC_absent rootPath s :
  wf s ->
  (forall d, d ∈ delete_dirs -> s !! (rootPath ++ [d]) = None) ->
  s !! (rootPath ++ ["go.mod"]) = None ->
  deleteMVC rootPath s = (s, Ok tt).
Proof.
  intros Hwf Hdirs Hmod. unfold deleteMVC, bind.
  rewrite for_each_id.
  - destruct (resolve_None _ _ Hwf Hmod) as [e He].
    rewrite Join_go_mod. unfold try, os.Stat. by rewrite He.
  - intros d Hd. rewrite (Join_delete_dir _ _ Hd). apply RemoveAll_absent; auto.
Qed.

(** ** The properties *)

(** C2.  Whatever the file system and whatever the outcome,
    [deleteMVC] only removes entries: every entry it leaves is one that
    was there, unchanged, and every path that is neither at or below one
    of the eight names under the root nor the manifest [go.mod] of the
    root holds after the call what it held before. *)
Theorem deleteMVC_scope (rootPath : path) (s : fs) :
  (deleteMVC rootPath s).1 ⊆ s /\
  forall q : path, ~ delete_scope rootPath q ->
    (deleteMVC rootPath s).1 !! q = s !! q.
Proof.
  destruct (deleteMVC rootPath s) as [s' r] eqn:E.
  exact (deleteMVC_shrinks rootPath s s' r E).
Qed.

(** The scoping test of the specification: an unrelated file under the
    root survives provisioning followed by decommissioning. *)
Example deleteMVC_keeps_notes :
  let s1 := (setupMVC trim_ascii go_tool example_root (Ok example_line) project_with_notes).1 in
  deleteMVC example_root s1 = (project_with_notes, Ok tt).
Proof. cbv zeta. by_running. Qed.

(** C5.  On a well-formed file system, a [deleteMVC] that follows a
    successful [deleteMVC] succeeds and changes nothing; after the first
    one none of the eight names and no manifest is left. *)
Theorem deleteMVC_idempotent (rootPath : path) (s s1 : fs) :
  wf s -> deleteMVC rootPath s = (s1, Ok tt) ->
  deleteMVC rootPath s1 = (s1, Ok tt) /\
  (forall d, d ∈ delete_dirs -> s1 !! (rootPath ++ [d]) = None) /\
  s1 !! (rootPath ++ ["go.mod"]) = None.
Proof.
  intros Hwf E. destruct (deleteMVC_Ok _ _ _ Hwf E) as (Hwf1 & Hdirs & Hmod).
  assert (Hnone : forall d, d ∈ delete_dirs -> s1 !! (rootPath ++ [d]) = None).
  { intros d Hd. by apply (Hdirs d). }
  split; [by apply deleteMVC_absent | done].
Qed.

Lemma deleteMVC_idempotent_witness :
  deleteMVC example_root empty_project = (empty_project, Ok tt) /\
  (forall d, d ∈ delete_dirs -> empty_project !! (example_root ++ [d]) = None) /\
  empty_project !! (example_root ++ ["go.mod"]) = None.
Proof.
  apply (deleteMVC_idempotent example_root provisioned empty_project).
  - by_running.
  - by_running.
Defined.



(** C3.  When the module initialisation fails, [setupMVC] fails with the
    module-init error and returns the file system exactly as the command
    left it: it makes no directory and writes no file. *)
Theorem setupMVC_module_init_failure
    (TrimSpace : string -> string) (Run : list string -> path -> M unit)
    (rootPath : path) (line : string) (s s' : fs) (err : error) :
  Run ["go"; "mod"; "init"; TrimSpace line] rootPath s = (s', Err err) ->
  setupMVC TrimSpace Run rootPath (Ok line) s =
    (s', Err (fmt.Errorf "failed to initialize go module: %v" err)).
Proof. intros E. rewrite setupMVC_unfold, E. reflexivity. Qed.

Lemma setupMVC_module_init_failure_witness :
  setupMVC trim_ascii go_tool example_root (Ok example_line) no_project =
    (no_project, Err (fmt.Errorf "failed to initialize go module: %v" (ExecError ENOENT))).
Proof.
  apply setupMVC_module_init_failure. by_running.
Defined.



(** With a module initialiser that only adds entries, so does the whole
    of [setupMVC]. *)
Lemma setupMVC_grows TrimSpace Run rootPath stdin :
  only_adds Run ->
  steps (grows (fun _ => True)) (setupMVC TrimSpace Run rootPath stdin).
Proof.
  intros HRun s s' r. destruct stdin as [line|e].
  - rewrite setupMVC_unfold.
    destruct (Run _ rootPath s) as [s1 [[]|err]] eqn:ER.
    + intros E. etrans; [by eapply HRun|].
      eapply grows_mono; [|by eapply scaffold_grows]. done.
    + intros [= <- _]. by eapply HRun.
  - rewrite setupMVC_read_error. intros [= <- _]. reflexivity.
Qed.

(** C4.  Let the module initialiser be stubbed or tolerant: it may add
    entries but changes and removes none.  Then a second [setupMVC] with
    the same arguments, run on the file system the first one left,
    keeps the content of every file found at one of the six file paths,
    byte for byte. *)
Theorem setupMVC_rerun_keeps_files
    (TrimSpace : string -> string) (Run : list string -> path -> M unit)
    (rootPath : path) (stdin : result string) (s0 s1 s2 : fs) (r1 r2 : result unit) :
  only_adds Run ->
  wf s0 ->
  setupMVC TrimSpace Run rootPath stdin s0 = (s1, r1) ->
  setupMVC TrimSpace Run rootPath stdin s1 = (s2, r2) ->
  forall projectName f content,
    f ∈ setup_files projectName ->
    s1 !! filepath.Join rootPath f.1 = Some (File content) ->
    s2 !! filepath.Join rootPath f.1 = Some (File content).
Proof.
  intros HRun Hwf E1 E2 projectName f content _ Hf.
  destruct (setupMVC_grows TrimSpace Run rootPath stdin HRun _ _ _ E1 Hwf) as (Hwf1 & _).
  destruct (setupMVC_grows TrimSpace Run rootPath stdin HRun _ _ _ E2 Hwf1) as (_ & Hsub & _).
  by eapply lookup_weaken.
Qed.

Lemma setupMVC_rerun_keeps_files_witness :
  (setupMVC trim_ascii stub_run example_root (Ok example_line)
     (setupMVC trim_ascii stub_run example_root (Ok example_line) empty_project).1).1
    !! filepath.Join example_root ["cmd/api"; "main.go"]
  = Some (File (mainGoContent "example.com/u/p1")).
Proof.
  assert (HRun : only_adds stub_run) by (intros argv dir; apply steps_ret).
  assert (Hwf : wf empty_project) by (by_running).
  apply (setupMVC_rerun_keeps_files trim_ascii stub_run example_root (Ok example_line)
           empty_project _ _ _ _ HRun Hwf (surjective_pairing _) (surjective_pairing _)
           "example.com/u/p1" (["cmd/api"; "main.go"], mainGoContent "example.com/u/p1")).
  - left.
  - by_running.
Defined.

(** C1, as the program has it.  Take a well-formed file system in which
    none of the eight names and no manifest exists under the root, and a
    module initialiser that, when it succeeds, changes nothing but the
    manifest of the root.  Then a successful [setupMVC] followed by a
    successful [deleteMVC] leaves every path other than the root and its
    ancestors as it was; and when the root existed before, it leaves the
    whole file system as it was. *)
Theorem setupMVC_deleteMVC_round_trip
    (TrimSpace : string -> string) (Run : list string -> path -> M unit)
    (rootPath : path) (line : string) (s0 s1 s2 : fs) :
  wf s0 ->
  writes_manifest_only Run ->
  (forall d, d ∈ delete_dirs -> s0 !! (rootPath ++ [d]) = None) ->
  s0 !! (rootPath ++ ["go.mod"]) = None ->
  setupMVC TrimSpace Run rootPath (Ok line) s0 = (s1, Ok tt) ->
  deleteMVC rootPath s1 = (s2, Ok tt) ->
  (forall q, ~ q `prefix_of` rootPath -> s2 !! q = s0 !! q) /\
  (is_Some (s0 !! rootPath) -> s2 = s0).
Proof.
  intros Hwf0 HRun Hdirs0 Hmod0 E1 E2.
  rewrite setupMVC_unfold in E1.
  destruct (Run _ rootPath s0) as [sA [[]|err]] eqn:ER; [|done].
  destruct (HRun _ _ _ _ ER Hwf0) as [HwfA HfrA].
  destruct (scaffold_grows _ _ _ _ _ E1 HwfA) as (Hwf1 & Hsub1 & Hfr1).
  destruct (deleteMVC_Ok _ _ _ Hwf1 E2) as (Hwf2 & Hdirs2 & Hmod2).
  destruct (deleteMVC_shrinks _ _ _ _ E2) as [Hsub2 Hfr2].
  assert (Hout : forall q, ~ q `prefix_of` rootPath -> s2 !! q = s0 !! q).
  { intros q Hq.
    destruct (decide (Exists (fun d => (rootPath ++ [d]) `prefix_of` q) delete_dirs))
      as [Hex|Hnex].
    - apply Exists_exists in Hex as (d & Hd & Hpre).
      rewrite (Hdirs2 d q Hd Hpre). symmetry.
      eapply wf_below; [done| |done]. by apply Hdirs0.
    - assert (Hnd : ~ exists d, d ∈ delete_dirs /\ (rootPath ++ [d]) `prefix_of` q).
      { intros Hd. apply Hnex, Exists_exists. done. }
      destruct (decide (q = rootPath ++ ["go.mod"])) as [->|Hne]; [congruence|].
      rewrite Hfr2 by (intros [?|?]; done).
      rewrite Hfr1 by (intros [?|?]; done).
      by apply HfrA. }
  split; [done|]. intros [n0 Hroot]. apply map_eq. intros q.
  destruct (decide (q `prefix_of` rootPath)) as [Hq|Hq]; [|by apply Hout].
  assert (Hlen : length q <= length rootPath) by (by apply prefix_length).
  assert (Hqn : exists n, s0 !! q = Some n).
  { destruct Hq as [k Hk]. destruct k as [|x k].
    - rewrite app_nil_r in Hk. subst q. eauto.
    - rewrite Hk in Hroot. apply (wf_ancestor _ _ _ _ Hwf0) in Hroot; [|done].
      apply is_dir_Some in Hroot as [w Hw]. eauto. }
  destruct Hqn as [n Hn]. rewrite Hn.
  rewrite Hfr2.
  - apply (lookup_weaken sA s1); [|done]. rewrite HfrA; [done|].
    intros ->. rewrite length_app in Hlen. simpl in Hlen. lia.
  - intros [(d & _ & Hpre)| ->].
    + apply prefix_length in Hpre. rewrite length_app in Hpre. simpl in Hpre. lia.
    + rewrite length_app in Hlen. simpl in Hlen. lia.
Qed.

Lemma go_tool_manifest_only : writes_manifest_only go_tool.
Proof.
  intros argv dir s s'. unfold go_tool. intros E Hwf.
  destruct (resolve s dir) as [e|[c|w]] eqn:Hr; try done.
  destruct argv as [|a1 [|a2 [|a3 [|a4 [|a5 argv]]]]]; try done.
  destruct (s !! (dir ++ ["go.mod"])) eqn:Hm; [done|].
  destruct w; [|done]. injection E as <-. split.
  - apply wf_insert_fresh; [done..|by destruct dir|].
    rewrite dirname_snoc. apply resolve_inr in Hr; [|done]. by rewrite Hr.
  - intros q Hq. by apply lookup_insert_ne.
Qed.

Lemma setupMVC_deleteMVC_round_trip_witness :
  deleteMVC example_root provisioned = (empty_project, Ok tt).
Proof.
  assert (Hwf : wf empty_project) by (by_running).
  assert (E2 : deleteMVC example_root provisioned =
               ((deleteMVC example_root provisioned).1, Ok tt)) by (by_running).
  pose proof (setupMVC_deleteMVC_round_trip trim_ascii go_tool example_root example_line
    empty_project provisioned (deleteMVC example_root provisioned).1 Hwf
    go_tool_manifest_only) as H.
  rewrite E2. apply (f_equal (fun x : fs => (x, Ok tt))). apply H.
  - intros d Hd. unfold delete_dirs in Hd. rewrite !elem_of_cons, elem_of_nil in Hd.
    repeat (destruct Hd as [->|Hd]; [by_running|]). destruct Hd.
  - by_running.
  - by_running.
  - exact E2.
  - by_running.
Defined.

(** C1, as stated, fails: a view the user kept under [views] before
    provisioning is gone after provisioning and decommissioning, both of
    which succeed. *)
Lemma setupMVC_deleteMVC_round_trip_counterexample :
  (setupMVC trim_ascii go_tool example_root (Ok example_line) project_with_view).2 = Ok tt /\
  deleteMVC example_root
    (setupMVC trim_ascii go_tool example_root (Ok example_line) project_with_view).1
  = (empty_project, Ok tt) /\
  project_with_view !! ["tmp"; "p1"; "views"; "index.html"] = Some (File "<h1>hello</h1>") /\
  empty_project !! ["tmp"; "p1"; "views"; "index.html"] = None.
Proof. by_running. Qed.

(** *** Failures while the directories are made *)

(** A loop stops at the first element whose body fails, in the state that
    body left. *)
Lemma for_each_Err {A : Type} (f : A -> M unit) (done : list A) x rest s s1 s2 e :
  for_each f done s = (s1, Ok tt) ->
  f x s1 = (s2, Err e) ->
  for_each f (done ++ x :: rest) s = (s2, Err e).
Proof.
  revert s. induction done as [|y done IH]; intros s; simpl.
  - intros [= <-] E. unfold bind. by rewrite E.
  - unfold bind. destruct (f y s) as [sy [[]|e']]; [|done]. apply IH.
Qed.

(** An error of [createDir] ends [setupMVC] with that error, in the state
    the failed call left: no later directory is made and no file is
    written, and the directories made before stay. *)
Lemma setupMVC_createDir_failure TrimSpace Run rootPath line s sA done d rest s1 s2 e :
  Run ["go"; "mod"; "init"; TrimSpace line] rootPath s = (sA, Ok tt) ->
  map (fun d => filepath.Join rootPath [d]) setup_dirs = done ++ d :: rest ->
  for_each createDir done sA = (s1, Ok tt) ->
  createDir d s1 = (s2, Err e) ->
  setupMVC TrimSpace Run rootPath (Ok line) s = (s2, Err e) /\
  (wf sA -> sA ⊆ s1 /\ s1 ⊆ s2).
Proof.
  intros ER Hdirs Hdone Hd. split.
  - rewrite setupMVC_unfold, ER. unfold scaffold, bind.
    by rewrite Hdirs, (for_each_Err _ _ _ _ _ _ _ _ Hdone Hd).
  - intros HwfA.
    assert (H1 : grows (fun _ => True) sA s1).
    { eapply (steps_for_each (R := grows (fun _ => True))); [|done].
      intros p _. eapply steps_weaken; [|apply createDir_grows].
      intros ? ?. by apply grows_mono. }
    destruct (H1 HwfA) as (Hwf1 & Hsub1 & _). split; [done|].
    by apply (createDir_grows d s1 s2 _ Hd).
Qed.

(** The permission error of [os.MkdirAll] is returned, and nothing but
    the manifest was made. *)
Example setupMVC_mkdir_permission_denied :
  setupMVC trim_ascii go_tool example_root (Ok example_line) project_with_locked_cmd =
    (<[["tmp"; "p1"; "go.mod"] := File ("module example.com/u/p1" +:+ String LF EmptyString)]>
       project_with_locked_cmd,
     Err (PathError "mkdir" ["tmp"; "p1"; "cmd"; "api"] EACCES)).
Proof. by_running. Qed.

(** An error of [os.Stat] other than ENOENT makes [createDir] return
    [nil] without a directory at the path. *)
Lemma createDir_stat_error_accepted p s e :
  resolve s p = inl e -> e <> ENOENT -> createDir p s = (s, Ok tt).
Proof.
  intros Hr He. unfold createDir, bind, try, os.Stat. rewrite Hr.
  destruct e; done.
Qed.

(** C7, the failing input.  With a regular file named [cmd] in the
    project directory, [os.Stat] of [cmd/api] fails with ENOTDIR; this
    failure is not reported: [createDir] and then [setupMVC] return
    [nil], and neither the directory [cmd/api] nor the entry point
    exists afterwards. *)
Theorem setupMVC_stat_failure_not_surfaced :
  let s1 := (setupMVC trim_ascii go_tool example_root (Ok example_line) project_with_cmd_file).1 in
  os.Stat ["tmp"; "p1"; "cmd"; "api"] project_with_cmd_file =
    (project_with_cmd_file, Err (PathError "stat" ["tmp"; "p1"; "cmd"; "api"] ENOTDIR)) /\
  createDir ["tmp"; "p1"; "cmd"; "api"] project_with_cmd_file = (project_with_cmd_file, Ok tt) /\
  setupMVC trim_ascii go_tool example_root (Ok example_line) project_with_cmd_file = (s1, Ok tt) /\
  s1 !! ["tmp"; "p1"; "cmd"] = Some (File "#!/bin/sh") /\
  s1 !! ["tmp"; "p1"; "cmd"; "api"] = None /\
  s1 !! ["tmp"; "p1"; "cmd"; "api"; "main.go"] = None /\
  is_dir (s1 !! ["tmp"; "p1"; "middleware"]).
Proof. cbv zeta. by_running. Qed.

Lemma append_cons c (a b : string) : String c a +:+ b = String c (a +:+ b).
Proof. reflexivity. Qed.

Lemma append_assoc (a b c : string) : (a +:+ b) +:+ c = a +:+ (b +:+ c).
Proof.
  induction a as [|x a IH]; [reflexivity|].
  by rewrite !append_cons, IH.
Qed.

Lemma length_append (a b : string) :
  String.length (a +:+ b) = String.length a + String.length b.
Proof.
  induction a as [|x a IH]; [reflexivity|].
  rewrite append_cons. simpl. by rewrite IH.
Qed.

(** Two strings of one length that start equal texts are equal. *)
Lemma append_inv_length (a b x y : string) :
  String.length a = String.length b -> a +:+ x = b +:+ y -> a = b /\ x = y.
Proof.
  revert b. induction a as [|c a IH]; intros [|d b]; simpl; try done.
  rewrite !append_cons.
  intros [= Hlen] [= -> Heq]. destruct (IH _ Hlen Heq) as [-> ->]. done.
Qed.

Lemma HasPrefix_append (p t : string) : gostrings.HasPrefix (p +:+ t) p = true.
Proof.
  induction p as [|c p IH]; [reflexivity|].
  rewrite append_cons. simpl. by rewrite Ascii.eqb_refl, IH.
Qed.

Lemma Contains_append (a x b : string) :
  gostrings.Contains (a +:+ x +:+ b) x = true.
Proof.
  induction a as [|c a IH].
  - change (gostrings.Contains (x +:+ b) x = true).
    destruct (x +:+ b) eqn:E; simpl; rewrite <- E, HasPrefix_append; done.
  - rewrite append_cons. simpl. rewrite IH. apply orb_true_r.
Qed.

Lemma quoted_append (x t : string) :
  quoted x +:+ t = String DQ (x +:+ String DQ t).
Proof. unfold quoted. by rewrite append_cons, append_assoc. Qed.

Lemma mainGoContent_cut projectName :
  mainGoContent projectName =
  main_head +:+ quoted (projectName +:+ "/router") +:+ main_tail.
Proof.
  rewrite quoted_append, append_assoc. vm_compute. reflexivity.
Qed.

Lemma routerContent_cut projectName :
  routerContent projectName =
  router_head +:+ quoted (projectName +:+ "/controller") +:+
  (String LF (String TAB EmptyString) +:+ quoted (projectName +:+ "/middleware") +:+ router_tail).
Proof.
  rewrite !quoted_append, !append_assoc. vm_compute. reflexivity.
Qed.

Lemma append_inv_tail (a b c : string) : a +:+ c = b +:+ c -> a = b.
Proof.
  intros H. apply (append_inv_length a b c c); [|exact H].
  apply (f_equal String.length) in H. rewrite !length_append in H. lia.
Qed.

Lemma length_quoted (x : string) : String.length (quoted x) = S (S (String.length x)).
Proof. unfold quoted. simpl. rewrite length_append. simpl. lia. Qed.

Lemma mainGoContent_inj m1 m2 : mainGoContent m1 = mainGoContent m2 -> m1 = m2.
Proof.
  rewrite !mainGoContent_cut, !quoted_append. intros H.
  apply String.app_inj in H. injection H as H.
  by apply append_inv_tail, append_inv_tail in H.
Qed.

Lemma routerContent_inj m1 m2 : routerContent m1 = routerContent m2 -> m1 = m2.
Proof.
  rewrite !routerContent_cut. intros H.
  apply String.app_inj in H.
  assert (Hlen : String.length m1 = String.length m2).
  { apply (f_equal String.length) in H.
    rewrite !length_append, !length_quoted, !length_append in H. lia. }
  rewrite !quoted_append, !append_assoc in H. injection H as H.
  by destruct (append_inv_length _ _ _ _ Hlen H).
Qed.

(** What [setupMVC] renders for each of the six files. *)
Lemma rendered_main m : rendered m ["cmd/api"; "main.go"] = Some (mainGoContent m).
Proof. vm_compute. reflexivity. Qed.

Lemma rendered_controller m :
  rendered m ["controller"; "home_controller.go"] = Some controllerContent.
Proof. vm_compute. reflexivity. Qed.

Lemma rendered_model m : rendered m ["models"; "user.go"] = Some modelContent.
Proof. vm_compute. reflexivity. Qed.

Lemma rendered_pkg m : rendered m ["pkg"; "utility.go"] = Some pkgContent.
Proof. vm_compute. reflexivity. Qed.

Lemma rendered_router m : rendered m ["router"; "router.go"] = Some (routerContent m).
Proof. vm_compute. reflexivity. Qed.

Lemma rendered_middleware m :
  rendered m ["middleware"; "request_logger.go"] = Some middlewareContent.
Proof. vm_compute. reflexivity. Qed.

(** C6.  For every module identifier, the entry point [setupMVC] renders
    contains the import of [<module>/router], the router it renders
    contains the imports of [<module>/controller] and
    [<module>/middleware], each with the identifier byte for byte
    between the quote and the slash; the model and the utility file are
    rendered without the identifier: the model has no import at all, and
    the only import of the utility file is [fmt]. *)
Theorem generated_imports_carry_module_identifier (projectName : string) :
  rendered projectName ["cmd/api"; "main.go"] = Some (mainGoContent projectName) /\
  gostrings.Contains (mainGoContent projectName) (quoted (projectName +:+ "/router")) = true /\
  rendered projectName ["router"; "router.go"] = Some (routerContent projectName) /\
  gostrings.Contains (routerContent projectName) (quoted (projectName +:+ "/controller")) = true /\
  gostrings.Contains (routerContent projectName) (quoted (projectName +:+ "/middleware")) = true /\
  rendered projectName ["models"; "user.go"] = Some modelContent /\
  gostrings.occurrences modelContent "import" = 0 /\
  rendered projectName ["pkg"; "utility.go"] = Some pkgContent /\
  gostrings.occurrences pkgContent "import" = 1 /\
  gostrings.Contains pkgContent ("import " +:+ quoted "fmt") = true.
Proof.
  split; [apply rendered_main|]. split.
  { rewrite mainGoContent_cut. apply Contains_append. }
  split; [apply rendered_router|]. split.
  { rewrite routerContent_cut. apply Contains_append. }
  split.
  { rewrite routerContent_cut.
    rewrite <- (append_assoc (quoted (projectName +:+ "/controller"))).
    rewrite <- (append_assoc router_head). apply Contains_append. }
  split; [apply rendered_model|]. split; [vm_compute; reflexivity|].
  split; [apply rendered_pkg|]. split; vm_compute; reflexivity.
Qed.

(** C8.  For any two module identifiers [setupMVC] renders the same
    controller, model, utility and middleware file; the entry point and
    the router differ as soon as the identifiers differ.  The entry-point
    format has one substitution point and the router format two, three
    in all; the other four texts are never passed to [fmt.Sprintf]. *)
Theorem only_entry_point_and_router_depend_on_module (m1 m2 : string) :
  rendered m1 ["controller"; "home_controller.go"] = rendered m2 ["controller"; "home_controller.go"] /\
  rendered m1 ["models"; "user.go"] = rendered m2 ["models"; "user.go"] /\
  rendered m1 ["pkg"; "utility.go"] = rendered m2 ["pkg"; "utility.go"] /\
  rendered m1 ["middleware"; "request_logger.go"] = rendered m2 ["middleware"; "request_logger.go"] /\
  (rendered m1 ["cmd/api"; "main.go"] = rendered m2 ["cmd/api"; "main.go"] -> m1 = m2) /\
  (rendered m1 ["router"; "router.go"] = rendered m2 ["router"; "router.go"] -> m1 = m2) /\
  fmt.verbs mainGoFormat = 1 /\
  fmt.verbs routerFormat = 2 /\
  fmt.verbs mainGoFormat + fmt.verbs routerFormat = 3.
Proof.
  rewrite !rendered_controller, !rendered_model, !rendered_pkg, !rendered_middleware,
    !rendered_main, !rendered_router.
  repeat (split; [reflexivity|]). split; [|split].
  - intros H. apply mainGoContent_inj. exact (inj Some _ _ H).
  - intros H. apply routerContent_inj. exact (inj Some _ _ H).
  - repeat split; vm_compute; reflexivity.
Qed.

(** ** Further properties of the program *)

(** *** Path resolution *)

Lemma walk_app s k : forall cur rest n,
  walk s cur k = inr n ->
  walk s cur (k ++ rest) =
    match rest with
    | [] => inr n
    | x :: r =>
        match n with
        | File _ => inl ENOTDIR
        | Dir _ => walk s (cur ++ k ++ [x]) r
        end
    end.
Proof.
  induction k as [|y k IH]; intros cur rest n; simpl.
  - destruct (s !! cur) as [m|] eqn:Hc; [|done]. intros [= ->].
    destruct rest as [|x r]; simpl; by rewrite Hc.
  - destruct (s !! cur) as [[c|w]|] eqn:Hc; try done.
    intros H. rewrite (IH _ rest _ H).
    destruct rest as [|x r]; [done|]. destruct n; [done|].
    by rewrite <- !app_assoc.
Qed.

Lemma walk_errno s rest : forall cur e,
  walk s cur rest = inl e -> e = ENOENT \/ e = ENOTDIR.
Proof.
  induction rest as [|x rest IH]; intros cur e; simpl.
  - destruct (s !! cur); [done|]. intros [= <-]. by left.
  - destruct (s !! cur) as [[c|w]|]; [intros [= <-]; by right | apply IH |].
    intros [= <-]. by left.
Qed.

Lemma walk_ENOTDIR_inv s rest : forall cur,
  walk s cur rest = inl ENOTDIR ->
  exists k x k' c, rest = k ++ x :: k' /\ s !! (cur ++ k) = Some (File c).
Proof.
  induction rest as [|x rest IH]; intros cur; simpl.
  - destruct (s !! cur); done.
  - destruct (s !! cur) as [[c|w]|] eqn:Hc; [| |done].
    + intros _. exists [], x, rest, c. by rewrite app_nil_r.
    + intros H. destruct (IH _ H) as (k & y & k' & c & -> & Hf).
      exists (x :: k), y, k', c. split; [done|]. by rewrite <- app_assoc in Hf.
Qed.

(** On a well-formed tree [os.Stat] fails with ENOTDIR exactly below a
    regular file. *)
Lemma resolve_ENOTDIR s p :
  wf s -> resolve s p = inl ENOTDIR <-> file_above s p.
Proof.
  intros Hwf. split.
  - intros H. destruct (walk_ENOTDIR_inv _ _ _ H) as (k & x & k' & c & -> & Hf).
    exists k, c. split; [by exists (x :: k')|]. split; [|done].
    intros Heq. apply (f_equal length) in Heq. rewrite length_app in Heq.
    simpl in Heq. lia.
  - intros (a & c & [k ->] & Hne & Hf).
    destruct k as [|x k']; [by rewrite app_nil_r in Hne|].
    unfold resolve. rewrite (walk_app s a [] (x :: k') (File c)); [done|].
    by apply (walk_complete s [] a).
Qed.


(** Below a directory there is no file above: the ancestors of an entry
    are directories. *)


(** *** What one call of [createDir] or [createFile] does *)

Lemma mkdir_all_descend s k : forall cur w w' rest perm,
  wf s -> s !! cur = Some (Dir w) -> s !! (cur ++ k) = Some (Dir w') ->
  os.mkdir_all s cur w (k ++ rest) perm = os.mkdir_all s (cur ++ k) w' rest perm.
Proof.
  induction k as [|y k IH]; intros cur w w' rest perm Hwf Hcur Hk.
  - rewrite app_nil_r in *. simpl. congruence.
  - assert (Hy : is_dir (s !! (cur ++ [y]))).
    { destruct k as [|z k]; [by rewrite Hk|].
      rewrite (cons_middle y cur), app_assoc in Hk.
      by apply (wf_ancestor _ _ _ _ Hwf) in Hk. }
    apply is_dir_Some in Hy as [w1 Hw1]. simpl. rewrite Hw1.
    rewrite (cons_middle y cur k), app_assoc in Hk |- *.
    by apply IH.
Qed.

Lemma mkdir_all_fresh rest : forall s cur x,
  wf s -> s !! cur = Some (Dir true) -> s !! (cur ++ [x]) = None ->
  os.mkdir_all s cur true (x :: rest) true = (make_dirs s cur (x :: rest), Ok tt) /\
  wf (make_dirs s cur (x :: rest)).
Proof.
  induction rest as [|y rest IH]; intros s cur x Hwf Hcur Hx.
  - simpl. rewrite Hx. split; [done|].
    apply wf_insert_fresh; [done..|by destruct cur|]. by rewrite dirname_snoc, Hcur.
  - cbn [os.mkdir_all make_dirs]. rewrite Hx.
    apply IH.
    + apply wf_insert_fresh; [done..|by destruct cur|]. by rewrite dirname_snoc, Hcur.
    + by rewrite lookup_insert_eq.
    + rewrite lookup_insert_ne.
      * eapply wf_below; [done..|]. by exists [y].
      * intros Heq. apply (f_equal length) in Heq. rewrite !length_app in Heq.
        simpl in Heq. lia.
Qed.

(** The directory [d] exists and [x] is missing in it: [os.Stat] of
    anything at or below [d/x] reports that it does not exist. *)
Lemma resolve_missing s (d : path) w x rest :
  wf s -> s !! d = Some (Dir w) -> s !! (d ++ [x]) = None ->
  resolve s (d ++ x :: rest) = inl ENOENT.
Proof.
  intros Hwf Hd Hx. unfold resolve.
  rewrite (walk_app s d [] (x :: rest) (Dir w)); [|by apply (walk_complete s [] d)].
  simpl. destruct rest; simpl; by rewrite Hx.
Qed.

Lemma createDir_creates s (d : path) x rest :
  wf s -> s !! d = Some (Dir true) -> s !! (d ++ [x]) = None ->
  createDir (d ++ x :: rest) s = (make_dirs s d (x :: rest), Ok tt) /\
  wf (make_dirs s d (x :: rest)).
Proof.
  intros Hwf Hd Hx.
  destruct (mkdir_all_fresh rest s d x Hwf Hd Hx) as [E Hwf'].
  split; [|done].
  unfold createDir, bind, try, os.Stat. rewrite (resolve_missing s d true x rest) by done.
  simpl. unfold os.MkdirAll.
  destruct (is_dir_Some _ (wf_root _ Hwf)) as [w0 Hroot]. rewrite Hroot.
  rewrite (mkdir_all_descend s d [] w0 true (x :: rest)); done.
Qed.




(** [os.Create] of a missing entry [x] in the existing directory [d]. *)
Lemma Create_missing s (d : path) w x :
  wf s -> s !! d = Some (Dir w) -> s !! (d ++ [x]) = None ->
  os.Create (d ++ [x]) s =
    if w then (<[d ++ [x] := File EmptyString]> s, Ok (d ++ [x]))
    else (s, Err (PathError "open" (d ++ [x]) EACCES)).
Proof.
  intros Hwf Hd Hx. unfold os.Create.
  rewrite (resolve_missing s d w x []) by done.
  destruct (d ++ [x]) as [|y p'] eqn:Hp; [by destruct d|]. rewrite <- Hp.
  rewrite dirname_snoc, (proj2 (resolve_inr s d _ Hwf) Hd). by destruct w.
Qed.


Lemma createFile_creates s (d : path) x content :
  wf s -> s !! d = Some (Dir true) -> s !! (d ++ [x]) = None ->
  createFile (d ++ [x]) content s = (<[d ++ [x] := File content]> s, Ok tt) /\
  wf (<[d ++ [x] := File content]> s).
Proof.
  intros Hwf Hd Hx. split.
  - unfold createFile, bind, try, os.Stat.
    rewrite (resolve_missing s d true x []) by done. cbn [IsNotExist].
    rewrite (Create_missing s d true x) by done.
    unfold os.WriteString, os.Close, ret. rewrite lookup_insert_eq.
    by rewrite insert_insert_eq.
  - apply wf_insert_fresh; [done..|by destruct d|]. by rewrite dirname_snoc, Hd.
Qed.






(** The three ways [createFile] can end on a well-formed tree. *)
Lemma createFile_trichotomy (p : path) content s s' r :
  wf s -> createFile p content s = (s', r) ->
  (settled s p /\ s' = s /\ r = Ok tt) \/
  (s !! p = None /\ s' = <[p := File content]> s /\ r = Ok tt) \/
  (s' = s /\ (r = Err (PathError "open" p EACCES) \/ r = Err (PathError "open" p ENOENT))).
Proof.
  intros Hwf. unfold createFile, bind, try, os.Stat, settled.
  destruct (resolve s p) as [e|n] eqn:Hr; cbn [IsNotExist].
  2: { intros [= <- <-]. left. done. }
  destruct (walk_errno _ _ _ _ Hr) as [->| ->]; cbn [IsNotExist].
  2: { intros [= <- <-]. left. done. }
  pose proof (resolve_inl _ _ _ Hwf Hr) as Hnone.
  unfold os.Create. rewrite Hr.
  destruct p as [|x p']; [intros [= <- <-]; right; right; auto|].
  set (p := x :: p') in *.
  destruct (dirname_prefix p) as [y Hy]; [done|].
  destruct (resolve s (dirname p)) as [e|[c'|[|]]] eqn:Hd.
  - destruct (walk_errno _ _ _ _ Hd) as [->| ->]; [intros [= <- <-]; right; right; auto|].
    exfalso. apply resolve_ENOTDIR in Hd as (a & c & Hpre & Hne & Ha); [|done].
    assert (Hfa : file_above s p).
    { exists a, c. split; [|split; [|done]].
      - etrans; [done|]. exists [y]. done.
      - intros ->. congruence. }
    apply resolve_ENOTDIR in Hfa; [|done]. congruence.
  - exfalso. apply resolve_inr in Hd; [|done].
    assert (Hfa : file_above s p).
    { exists (dirname p), c'. split; [by exists [y]|]. split; [|done].
      by apply dirname_ne. }
    apply resolve_ENOTDIR in Hfa; [|done]. congruence.
  - unfold os.WriteString, os.Close, ret. rewrite lookup_insert_eq.
    rewrite insert_insert_eq. intros [= <- <-]. right. left. done.
  - intros [= <- <-]. right. right. auto.
Qed.

Lemma createDir_settled s p : settled s p -> createDir p s = (s, Ok tt).
Proof.
  unfold settled, createDir, bind, try, os.Stat.
  destruct (resolve s p) as [e|n]; [|done]. destruct e; done.
Qed.

Lemma createFile_settled s p content : settled s p -> createFile p content s = (s, Ok tt).
Proof.
  unfold settled, createFile, bind, try, os.Stat.
  destruct (resolve s p) as [e|n]; [|done]. destruct e; done.
Qed.





(** *** A whole run on a fresh project directory *)

Lemma for_each_cons_Ok {A : Type} (f : A -> M unit) x l s s1 :
  f x s = (s1, Ok tt) -> for_each f (x :: l) s = for_each f l s1.
Proof. intros E. simpl. unfold bind. by rewrite E. Qed.

Lemma createDir_creates_one s (rootPath : path) x :
  wf s -> s !! rootPath = Some (Dir true) -> s !! (rootPath ++ [x]) = None ->
  createDir (rootPath ++ [x]) s = (<[rootPath ++ [x] := Dir true]> s, Ok tt) /\
  wf (<[rootPath ++ [x] := Dir true]> s).
Proof. intros Hwf Hr Hx. exact (createDir_creates s rootPath x [] Hwf Hr Hx). Qed.

Lemma createDir_creates_two s (rootPath : path) x y :
  wf s -> s !! rootPath = Some (Dir true) -> s !! (rootPath ++ [x]) = None ->
  createDir (rootPath ++ [x; y]) s =
    (<[rootPath ++ [x; y] := Dir true]> (<[rootPath ++ [x] := Dir true]> s), Ok tt) /\
  wf (<[rootPath ++ [x; y] := Dir true]> (<[rootPath ++ [x] := Dir true]> s)).
Proof.
  intros Hwf Hr Hx. pose proof (createDir_creates s rootPath x [y] Hwf Hr Hx) as H.
  cbn [make_dirs] in H. rewrite <- app_assoc in H. exact H.
Qed.

Lemma createFile_creates_at s (rootPath l : path) x content :
  wf s -> s !! (rootPath ++ l) = Some (Dir true) -> s !! (rootPath ++ l ++ [x]) = None ->
  createFile (rootPath ++ l ++ [x]) content s =
    (<[rootPath ++ l ++ [x] := File content]> s, Ok tt) /\
  wf (<[rootPath ++ l ++ [x] := File content]> s).
Proof. rewrite !app_assoc. apply createFile_creates. Qed.

(** Two paths below one root differ when what follows the root differs. *)
Ltac path_ne :=
  let H := fresh in
  intros H;
  first [ apply app_inv_head in H; discriminate H
        | apply (f_equal length) in H; rewrite ?length_app in H; simpl in H; lia ].

(** Look an entry up through the entries inserted after it. *)
Ltac look :=
  repeat first [ rewrite lookup_insert_eq | rewrite lookup_insert_ne by path_ne ];
  first [ assumption | reflexivity ].

Ltac dir_step x :=
  lazymatch goal with
  | W : wf ?s |- context [for_each createDir ((?root ++ [x]) :: _) ?s] =>
      let Hr := fresh in
      let Hn := fresh in
      let E := fresh in
      let W' := fresh in
      assert (Hr : s !! root = Some (Dir true)) by look;
      assert (Hn : s !! (root ++ [x]) = None) by look;
      destruct (createDir_creates_one s root x W Hr Hn) as [E W'];
      rewrite (for_each_cons_Ok _ _ _ _ _ E); clear W Hr Hn E
  end.

Ltac file_step l x :=
  lazymatch goal with
  | W : wf ?s |- context [for_each ?f ((?elem, ?c) :: ?rest) ?s] =>
      let Hr := fresh in
      let Hn := fresh in
      let E := fresh in
      let W' := fresh in
      lazymatch goal with
      | |- context [filepath.Join ?root _] =>
          assert (Hr : s !! (root ++ l) = Some (Dir true)) by look;
          assert (Hn : s !! (root ++ l ++ [x]) = None) by look;
          destruct (createFile_creates_at s root l x c W Hr Hn) as [E W'];
          rewrite (for_each_cons_Ok f (elem, c) rest s _ E); clear W Hr Hn E
      end
  end.

Lemma scaffold_fresh (rootPath : path) projectName s :
  wf s -> s !! rootPath = Some (Dir true) ->
  (forall d, d ∈ delete_dirs -> s !! (rootPath ++ [d]) = None) ->
  scaffold rootPath projectName s = (skeleton rootPath projectName s, Ok tt).
Proof.
  intros Hwf Hroot Hdirs.
  assert (Hcmd := Hdirs "cmd" ltac:(set_solver)).
  assert (Hcontroller := Hdirs "controller" ltac:(set_solver)).
  assert (Hmodels := Hdirs "models" ltac:(set_solver)).
  assert (Hpkg := Hdirs "pkg" ltac:(set_solver)).
  assert (Hconfig := Hdirs "config" ltac:(set_solver)).
  assert (Hviews := Hdirs "views" ltac:(set_solver)).
  assert (Hrouter := Hdirs "router" ltac:(set_solver)).
  assert (Hmiddleware := Hdirs "middleware" ltac:(set_solver)).
  assert (Hbelow : forall d k, d ∈ delete_dirs -> s !! (rootPath ++ d :: k) = None).
  { intros d k Hd. eapply wf_below; [done|by apply Hdirs|]. exists k.
    by rewrite <- app_assoc. }
  assert (Hf1 := Hbelow "cmd" ["api"; "main.go"] ltac:(set_solver)).
  assert (Hf2 := Hbelow "controller" ["home_controller.go"] ltac:(set_solver)).
  assert (Hf3 := Hbelow "models" ["user.go"] ltac:(set_solver)).
  assert (Hf4 := Hbelow "pkg" ["utility.go"] ltac:(set_solver)).
  assert (Hf5 := Hbelow "router" ["router.go"] ltac:(set_solver)).
  assert (Hf6 := Hbelow "middleware" ["request_logger.go"] ltac:(set_solver)).
  clear Hdirs Hbelow.
  unfold scaffold, bind.
  change (map (fun d => filepath.Join rootPath [d]) setup_dirs) with
    [rootPath ++ ["cmd"; "api"]; rootPath ++ ["controller"]; rootPath ++ ["models"];
     rootPath ++ ["pkg"]; rootPath ++ ["config"]; rootPath ++ ["views"];
     rootPath ++ ["router"]; rootPath ++ ["middleware"]].
  destruct (createDir_creates_two s rootPath "cmd" "api" Hwf Hroot Hcmd) as [E1 W1].
  rewrite (for_each_cons_Ok _ _ _ _ _ E1). clear E1 Hwf.
  dir_step "controller". dir_step "models". dir_step "pkg". dir_step "config".
  dir_step "views". dir_step "router". dir_step "middleware".
  cbn [for_each]. unfold ret at 1. unfold setup_files.
  file_step ["cmd"; "api"] "main.go".
  file_step ["controller"] "home_controller.go".
  file_step ["models"] "user.go".
  file_step ["pkg"] "utility.go".
  file_step ["router"] "router.go".
  file_step ["middleware"] "request_logger.go".
  reflexivity.
Qed.

Lemma foldl_insert_other (rootPath : path) (l : list (path * node)) : forall (s : fs) q,
  (forall e, e ∈ l -> q <> rootPath ++ e.1) ->
  foldl (fun acc e => <[rootPath ++ e.1 := e.2]> acc) s l !! q = s !! q.
Proof.
  induction l as [|e0 l IH]; intros s q Hq; simpl; [done|].
  rewrite IH by (intros e He; apply Hq; by right).
  apply lookup_insert_ne. apply not_eq_sym, Hq. by left.
Qed.

Lemma foldl_insert_elem (rootPath : path) (l : list (path * node)) : forall (s : fs) e,
  NoDup l.*1 -> e ∈ l ->
  foldl (fun acc e => <[rootPath ++ e.1 := e.2]> acc) s l !! (rootPath ++ e.1) = Some e.2.
Proof.
  induction l as [|e0 l IH]; intros s e Hnd He; [by apply elem_of_nil in He|].
  rewrite fmap_cons in Hnd. apply NoDup_cons in Hnd as [Hfresh Hnd]. simpl.
  apply elem_of_cons in He as [->|He]; [|by apply IH].
  rewrite foldl_insert_other; [by rewrite lookup_insert_eq|].
  intros e He Heq. apply app_inv_head in Heq. apply Hfresh.
  rewrite Heq. by apply list_elem_of_fmap_2.
Qed.

Lemma skeleton_entries_NoDup projectName : NoDup (skeleton_entries projectName).*1.
Proof. apply (bool_decide_eq_true_1 _). vm_compute. reflexivity. Qed.

(** X3.  In a project directory that is a directory with the write bit
    and holds none of the eight names after the module initialisation
    succeeded, [setupMVC] succeeds and makes exactly the skeleton: the
    nine directories ([cmd], [cmd/api] and the seven others) and the six
    files, each file with the text rendered for the trimmed module
    identifier; every other path holds what the module initialisation
    left. *)
Theorem setupMVC_fresh_project
    (TrimSpace : string -> string) (Run : list string -> path -> M unit)
    (rootPath : path) (line : string) (s sA : fs) :
  Run ["go"; "mod"; "init"; TrimSpace line] rootPath s = (sA, Ok tt) ->
  wf sA ->
  sA !! rootPath = Some (Dir true) ->
  (forall d, d ∈ delete_dirs -> sA !! (rootPath ++ [d]) = None) ->
  setupMVC TrimSpace Run rootPath (Ok line) s =
    (skeleton rootPath (TrimSpace line) sA, Ok tt) /\
  (forall e, e ∈ skeleton_entries (TrimSpace line) ->
     skeleton rootPath (TrimSpace line) sA !! (rootPath ++ e.1) = Some e.2) /\
  (forall q, (forall e, e ∈ skeleton_entries (TrimSpace line) -> q <> rootPath ++ e.1) ->
     skeleton rootPath (TrimSpace line) sA !! q = sA !! q).
Proof.
  intros ER Hwf Hroot Hdirs. split; [|split].
  - rewrite setupMVC_unfold, ER. by apply scaffold_fresh.
  - intros e He. apply foldl_insert_elem; [apply skeleton_entries_NoDup | done].
  - intros q Hq. by apply foldl_insert_other.
Qed.

Lemma setupMVC_fresh_project_witness :
  setupMVC trim_ascii go_tool example_root (Ok example_line) empty_project =
    (skeleton example_root (trim_ascii example_line) initialised, Ok tt).
Proof.
  apply (setupMVC_fresh_project trim_ascii go_tool example_root example_line
           empty_project initialised).
  - by_running.
  - by_running.
  - by_running.
  - intros d Hd. unfold delete_dirs in Hd. rewrite !elem_of_cons, elem_of_nil in Hd.
    repeat (destruct Hd as [->|Hd]; [by_running|]). destruct Hd.
Defined.

(** *** Running the directory and file phase again *)

Lemma mkdir_all_Ok rest : forall s cur w perm s',
  s !! cur = Some (Dir w) ->
  os.mkdir_all s cur w rest perm = (s', Ok tt) ->
  is_dir (s' !! (cur ++ rest)).
Proof.
  induction rest as [|x rest IH]; intros s cur w perm s' Hcur; simpl.
  - intros [= <-]. by rewrite app_nil_r, Hcur.
  - rewrite (cons_middle x cur rest), app_assoc.
    destruct (s !! (cur ++ [x])) as [[c|w']|] eqn:Hx; [done|by apply IH|].
    destruct w; [|done]. apply IH. by rewrite lookup_insert_eq.
Qed.

Lemma createDir_settles s p s' :
  wf s -> createDir p s = (s', Ok tt) -> settled s' p.
Proof.
  intros Hwf E.
  assert (Hwf' : wf s') by (by apply (createDir_grows p s s' _ E)).
  revert E. unfold createDir, bind, try, os.Stat, settled.
  destruct (resolve s p) as [e|n] eqn:Hr; cbn [IsNotExist].
  2: { intros [= <-]. congruence. }
  destruct (walk_errno _ _ _ _ Hr) as [->| ->]; cbn [IsNotExist].
  2: { intros [= <-]. congruence. }
  unfold os.MkdirAll.
  destruct (is_dir_Some _ (wf_root _ Hwf)) as [w0 Hroot]. rewrite Hroot.
  intros E. apply mkdir_all_Ok in E; [|done]. simpl in E.
  apply is_dir_Some in E as [w E]. apply resolve_inr in E; [|done]. congruence.
Qed.

Lemma createFile_settles s p content s' :
  wf s -> createFile p content s = (s', Ok tt) -> settled s' p.
Proof.
  intros Hwf E.
  assert (Hwf' : wf s') by (by apply (createFile_grows p content s s' _ E)).
  destruct (createFile_trichotomy _ _ _ _ _ Hwf E)
    as [(? & -> & _)|[(_ & -> & _)|[_ [?|?]]]]; try done.
  unfold settled.
  rewrite (proj2 (resolve_inr _ p (File content) Hwf')); [done|].
  by rewrite lookup_insert_eq.
Qed.

(** What [os.Stat] found, or the regular file it stumbled over, is still
    there when entries were only added. *)
Lemma settled_mono s s' p :
  wf s -> wf s' -> s ⊆ s' -> settled s p -> settled s' p.
Proof.
  intros Hwf Hwf' Hsub. unfold settled.
  destruct (resolve s p) as [e|n] eqn:Hr.
  - destruct (walk_errno _ _ _ _ Hr) as [->| ->]; [done|]. intros _.
    apply resolve_ENOTDIR in Hr as (a & c & Hpre & Hne & Ha); [|done].
    assert (Hfa : file_above s' p).
    { exists a, c. split; [done|]. split; [done|]. by eapply lookup_weaken. }
    apply resolve_ENOTDIR in Hfa; [|done]. congruence.
  - intros _. apply resolve_inr in Hr; [|done].
    eapply lookup_weaken in Hr; [|done].
    apply resolve_inr in Hr; [|done]. congruence.
Qed.

Lemma grows_all_unfold s s' :
  grows (fun _ => True) s s' -> wf s -> wf s' /\ s ⊆ s'.
Proof. intros H Hwf. destruct (H Hwf) as (? & ? & _). done. Qed.

Lemma createDir_grows_all p : steps (grows (fun _ => True)) (createDir p).
Proof.
  eapply steps_weaken; [|apply createDir_grows]. intros ? ?. by apply grows_mono.
Qed.

Lemma createFile_grows_all p c : steps (grows (fun _ => True)) (createFile p c).
Proof.
  eapply steps_weaken; [|apply createFile_grows]. intros ? ?. by apply grows_mono.
Qed.

(** After a loop of steps that settle their path, every path of the loop
    is settled. *)
Lemma for_each_settles {A : Type} (f : A -> M unit) (key : A -> path) l s s' :
  (forall x, steps (grows (fun _ => True)) (f x)) ->
  (forall x t t', wf t -> f x t = (t', Ok tt) -> settled t' (key x)) ->
  wf s -> for_each f l s = (s', Ok tt) ->
  forall x, x ∈ l -> settled s' (key x).
Proof.
  intros Hf Hset Hwf E x Hx.
  destruct (for_each_Ok (grows (fun _ => True)) f l Hf s s' E x Hx)
    as (s1 & s2 & H1 & Ex & H2).
  destruct (grows_all_unfold _ _ H1 Hwf) as [Hwf1 _].
  assert (Hwf2 : wf s2) by (by apply (Hf x s1 s2 _ Ex)).
  destruct (grows_all_unfold _ _ H2 Hwf2) as [Hwf' Hsub].
  apply (settled_mono s2 s' _ Hwf2 Hwf' Hsub). exact (Hset x s1 s2 Hwf1 Ex).
Qed.

(** X4.  The directory and file phase of [setupMVC] is idempotent: run
    again on the well-formed file system a successful run started from,
    as that run left it, it succeeds and changes nothing. *)
Theorem scaffold_idempotent (rootPath : path) (projectName : string) (s s' : fs) :
  wf s ->
  scaffold rootPath projectName s = (s', Ok tt) ->
  scaffold rootPath projectName s' = (s', Ok tt).
Proof.
  intros Hwf E. unfold scaffold, bind in E.
  destruct (for_each createDir _ s) as [s1 [[]|e]] eqn:Edirs; [|done].
  assert (H1 : grows (fun _ => True) s s1).
  { eapply (steps_for_each (R := grows (fun _ => True))); [|done].
    intros p _. apply createDir_grows_all. }
  destruct (grows_all_unfold _ _ H1 Hwf) as [Hwf1 _].
  assert (H2 : grows (fun _ => True) s1 s').
  { eapply (steps_for_each (R := grows (fun _ => True))); [|done].
    intros f _. apply createFile_grows_all. }
  destruct (grows_all_unfold _ _ H2 Hwf1) as [Hwf' Hsub].
  unfold scaffold, bind. rewrite for_each_id.
  - apply for_each_id. intros f Hf. apply createFile_settled.
    apply (for_each_settles
             (fun f => createFile (filepath.Join rootPath f.1) f.2)
             (fun f => filepath.Join rootPath f.1) (setup_files projectName) s1 s');
      try done.
    + intros x. apply createFile_grows_all.
    + intros x t t'. apply createFile_settles.
  - intros p Hp. apply createDir_settled.
    apply (settled_mono s1 s' p Hwf1 Hwf' Hsub).
    apply (for_each_settles createDir (fun p => p)
             (map (fun d => filepath.Join rootPath [d]) setup_dirs) s s1); try done.
    + apply createDir_grows_all.
    + intros x t t'. apply createDir_settles.
Qed.

Lemma scaffold_idempotent_witness :
  scaffold example_root "example.com/u/p1"
    (scaffold example_root "example.com/u/p1" project_with_cmd_file).1
  = ((scaffold example_root "example.com/u/p1" project_with_cmd_file).1, Ok tt).
Proof.
  apply (scaffold_idempotent example_root "example.com/u/p1" project_with_cmd_file).
  - by_running.
  - by_running.
Defined.

(** *** More on [setupMVC] and [deleteMVC] as wholes *)



Lemma deleteMVC_unfold rootPath s :
  deleteMVC rootPath s =
  match for_each (fun dir => os.RemoveAll (filepath.Join rootPath [dir])) delete_dirs s with
  | (s1, Ok _) =>
      match resolve s1 (rootPath ++ ["go.mod"]) with
      | inl _ => (s1, Ok tt)
      | inr _ =>
          match os.Remove (rootPath ++ ["go.mod"]) s1 with
          | (s2, Ok _) => (s2, Ok tt)
          | (s2, Err e) => (s2, Err (fmt.Errorf "failed to delete go.mod: %v" e))
          end
      end
  | (s1, Err e) => (s1, Err e)
  end.
Proof.
  unfold deleteMVC, bind. rewrite Join_go_mod.
  destruct (for_each _ delete_dirs s) as [s1 [[]|e]]; [|done].
  unfold try, os.Stat. destruct (resolve s1 _) as [e|n]; [done|]. simpl.
  destruct (os.Remove _ s1) as [s2 [[]|e]]; done.
Qed.



Lemma Remove_Err name s s' e : os.Remove name s = (s', Err e) -> s' = s.
Proof.
  unfold os.Remove. destruct (resolve s name) as [e0|n]; [by intros [= <-]|].
  destruct (negb (parent_writable s name)); [by intros [= <-]|].
  destruct n as [c|w]; [done|].
  destruct (decide (filter _ s = ∅)); [done | by intros [= <-]].
Qed.

Lemma go_mod_not_below_dir (rootPath : path) d :
  d ∈ delete_dirs -> ~ (rootPath ++ [d]) `prefix_of` (rootPath ++ ["go.mod"]).
Proof.
  intros Hd Hpre. apply prefix_app_inv, prefix_cons_inv_1 in Hpre. subst d.
  unfold delete_dirs in Hd. rewrite !elem_of_cons, elem_of_nil in Hd.
  repeat (destruct Hd as [Hd|Hd]; [discriminate Hd|]). destruct Hd.
Qed.

Lemma RemoveAll_loop_shrinks rootPath (l : list string) :
  (forall d, d ∈ l -> d ∈ delete_dirs) ->
  steps (shrinks (fun q => exists d, d ∈ l /\ (rootPath ++ [d]) `prefix_of` q))
    (for_each (fun dir => os.RemoveAll (filepath.Join rootPath [dir])) l).
Proof.
  intros Hl. apply steps_for_each. intros d Hd. rewrite (Join_delete_dir _ _ (Hl d Hd)).
  eapply steps_weaken; [|apply RemoveAll_shrinks].
  intros s s'. apply shrinks_mono. intros q Hq. eauto.
Qed.



(** X7.  A [deleteMVC] that fails has not touched the manifest: [go.mod]
    is removed last, and only by a run that returns [nil]. *)
Theorem deleteMVC_failure_keeps_manifest (rootPath : path) (s s' : fs) (e : error) :
  deleteMVC rootPath s = (s', Err e) ->
  s' !! (rootPath ++ ["go.mod"]) = s !! (rootPath ++ ["go.mod"]).
Proof.
  intros E. rewrite deleteMVC_unfold in E.
  destruct (for_each _ delete_dirs s) as [s1 [[]|e1]] eqn:Eloop.
  - destruct (resolve s1 _) as [e2|n]; [done|].
    destruct (os.Remove _ s1) as [s2 [[]|e2]] eqn:Erm; [done|].
    injection E as <- _. apply Remove_Err in Erm as ->.
    apply (RemoveAll_loop_shrinks rootPath delete_dirs (fun d H => H) _ _ _ Eloop).
    intros (d & Hd & Hpre). by apply (go_mod_not_below_dir rootPath d).
  - injection E as <- _.
    apply (RemoveAll_loop_shrinks rootPath delete_dirs (fun d H => H) _ _ _ Eloop).
    intros (d & Hd & Hpre). by apply (go_mod_not_below_dir rootPath d).
Qed.

Lemma deleteMVC_failure_keeps_manifest_witness :
  (deleteMVC example_root locked_project).1 !! (example_root ++ ["go.mod"])
  = locked_project !! (example_root ++ ["go.mod"]).
Proof.
  apply (deleteMVC_failure_keeps_manifest example_root locked_project
           (deleteMVC example_root locked_project).1
           (PathError "unlinkat" ["tmp"; "p1"; "cmd"] EACCES)).
  by_running.
Defined.







(** *** The command line and what the program prints *)

Lemma Sprintf_initialized x :
  fmt.Sprintf ("Initialized Go module: %s" +:+ String LF EmptyString) [x]
  = "Initialized Go module: " +:+ x +:+ String LF EmptyString.
Proof. reflexivity. Qed.

Lemma showHelp_prints out s : cli.showHelp out s = (out ++ usage, s, Ok tt).
Proof.
  unfold cli.showHelp, io_bind, stdout.Println, stdout.Print, usage.
  by rewrite <- !app_assoc.
Qed.

Lemma cli_setupMVC_unfold TrimSpace Run rootPath stdin out s :
  cli.setupMVC TrimSpace Run rootPath stdin out s =
  match stdin with
  | Err e => (out ++ [prompt], s, Err e)
  | Ok line =>
      match Run ["go"; "mod"; "init"; TrimSpace line] rootPath s with
      | (s1, Ok _) =>
          (out ++ [prompt; "Initialized Go module: " +:+ TrimSpace line +:+ String LF EmptyString],
           (scaffold rootPath (TrimSpace line) s1).1,
           (scaffold rootPath (TrimSpace line) s1).2)
      | (s1, Err err) =>
          (out ++ [prompt], s1, Err (fmt.Errorf "failed to initialize go module: %v" err))
      end
  end.
Proof.
  unfold cli.setupMVC, io_bind, stdout.Printf, stdout.Print, quiet, lift, try, io_fail.
  destruct stdin as [line|e]; [|done].
  destruct (Run _ rootPath s) as [s1 [[]|err]]; [|done].
  rewrite Sprintf_initialized. destruct (scaffold _ _ s1) as [s2 r].
  by rewrite <- app_assoc.
Qed.

Lemma cli_setupMVC_erase TrimSpace Run rootPath stdin out s :
  exists mid,
    cli.setupMVC TrimSpace Run rootPath stdin out s =
    (out ++ prompt :: mid,
     (setupMVC TrimSpace Run rootPath stdin s).1,
     (setupMVC TrimSpace Run rootPath stdin s).2).
Proof.
  rewrite cli_setupMVC_unfold. destruct stdin as [line|e]; [|by exists []].
  rewrite setupMVC_unfold.
  destruct (Run _ rootPath s) as [s1 [[]|err]]; [|by exists []].
  by eexists [_].
Qed.

Lemma cli_deleteMVC_unfold rootPath out s :
  cli.deleteMVC rootPath out s =
  match for_each (fun dir => os.RemoveAll (filepath.Join rootPath [dir])) delete_dirs s with
  | (s1, Ok _) =>
      match resolve s1 (rootPath ++ ["go.mod"]) with
      | inl _ => (out, s1, Ok tt)
      | inr _ =>
          match os.Remove (rootPath ++ ["go.mod"]) s1 with
          | (s2, Ok _) => (out ++ ["Deleted go.mod file." +:+ String LF EmptyString], s2, Ok tt)
          | (s2, Err e) => (out, s2, Err (fmt.Errorf "failed to delete go.mod: %v" e))
          end
      end
  | (s1, Err e) => (out, s1, Err e)
  end.
Proof.
  unfold cli.deleteMVC, io_bind, quiet. rewrite Join_go_mod.
  destruct (for_each _ delete_dirs s) as [s1 [[]|e]]; [|done].
  unfold try, os.Stat. destruct (resolve s1 _) as [e|n]; [done|]. simpl.
  destruct (os.Remove _ s1) as [s2 [[]|e]]; done.
Qed.

Lemma cli_deleteMVC_erase rootPath out s :
  exists mid,
    cli.deleteMVC rootPath out s =
    (out ++ mid, (deleteMVC rootPath s).1, (deleteMVC rootPath s).2).
Proof.
  rewrite cli_deleteMVC_unfold, deleteMVC_unfold.
  destruct (for_each _ delete_dirs s) as [s1 [[]|e]]; [|exists []; by rewrite app_nil_r].
  destruct (resolve s1 _) as [e|n]; [exists []; by rewrite app_nil_r|].
  destruct (os.Remove _ s1) as [s2 [[]|e]]; [by eexists [_]|exists []; by rewrite app_nil_r].
Qed.

(** X9.  [main] returns in every case (failures are printed, never
    returned), and it prints the usage text, and nothing else, exactly
    when [-h] is set or neither [-create] nor [-delete] carries a path;
    the file system is then untouched, whatever the other flags hold. *)
Theorem main_usage TrimSpace Run locate Error (fl : flags) stdin out s out' s' r :
  cli.main TrimSpace Run locate Error fl stdin out s = (out', s', r) ->
  r = Ok tt /\
  (out' = out ++ usage <->
   helpFlag fl = true \/ (createFlag fl = EmptyString /\ deleteFlag fl = EmptyString)) /\
  (out' = out ++ usage -> s' = s).
Proof.
  unfold cli.main. intros E.
  destruct (helpFlag fl) eqn:Hh.
  { rewrite showHelp_prints in E. injection E as <- <- <-. naive_solver. }
  destruct (String.eqb (createFlag fl) EmptyString) eqn:Hc; cbn [negb] in E.
  - apply String.eqb_eq in Hc.
    destruct (String.eqb (deleteFlag fl) EmptyString) eqn:Hd; cbn [negb] in E.
    { apply String.eqb_eq in Hd. rewrite showHelp_prints in E.
      injection E as <- <- <-. naive_solver. }
    apply String.eqb_neq in Hd.
    unfold io_bind, io_try, stdout.Println, stdout.Printf, stdout.Print in E.
    destruct (cli_deleteMVC_erase (locate (deleteFlag fl))
                (out ++ ["Deleting MVC structure..." +:+ String LF EmptyString]) s)
      as [mid Em].
    rewrite Em in E. rewrite <- app_assoc in E.
    assert (Hout : forall x, out ++ ["Deleting MVC structure..." +:+ String LF EmptyString] ++ x
                             <> out ++ usage).
    { intros x Hx. apply app_inv_head in Hx. discriminate Hx. }
    destruct (deleteMVC _ s).2; injection E as <- <- <-; rewrite <- app_assoc.
    + split; [done|]. split; [|by intros ?%Hout]. split; [by intros ?%Hout|by intros [?|[? ?]]].
    + split; [done|]. split; [|by intros ?%Hout]. split; [by intros ?%Hout|by intros [?|[? ?]]].
  - apply String.eqb_neq in Hc.
    unfold io_bind, io_try, stdout.Println, stdout.Printf, stdout.Print in E.
    destruct (cli_setupMVC_erase TrimSpace Run (locate (createFlag fl)) stdin
                (out ++ ["Creating MVC structure..." +:+ String LF EmptyString]) s)
      as [mid Em].
    rewrite Em in E. rewrite <- app_assoc in E.
    assert (Hout : forall x, out ++ ["Creating MVC structure..." +:+ String LF EmptyString] ++ x
                             <> out ++ usage).
    { intros x Hx. apply app_inv_head in Hx. discriminate Hx. }
    destruct (setupMVC _ _ _ _ s).2; injection E as <- <- <-; rewrite <- app_assoc.
    + split; [done|]. split; [|by intros ?%Hout]. split; [by intros ?%Hout|by intros [?|[? ?]]].
    + split; [done|]. split; [|by intros ?%Hout]. split; [by intros ?%Hout|by intros [?|[? ?]]].
Qed.

Lemma main_usage_witness :
  Ok tt = Ok tt /\
  ([] ++ usage = [] ++ usage <->
   helpFlag (Flags "/tmp/p1" "/tmp/p1" true) = true \/
   (createFlag (Flags "/tmp/p1" "/tmp/p1" true) = EmptyString /\
    deleteFlag (Flags "/tmp/p1" "/tmp/p1" true) = EmptyString)) /\
  ([] ++ usage = [] ++ usage -> provisioned = provisioned).
Proof.
  apply (main_usage trim_ascii go_tool absolute error_text
           (Flags "/tmp/p1" "/tmp/p1" true) (Ok example_line) [] provisioned).
  reflexivity.
Defined.

(** X10.  What [setupMVC] prints.  The prompt is written first, before
    the line is read, so also when reading fails.  The message
    [Initialized Go module: <name>], with the trimmed name, is written
    exactly when the module initialisation succeeded, whether or not the
    skeleton is created afterwards; in every other case the function
    returns an error.  Nothing else is printed, and file system and
    outcome are those of the function without its messages. *)
Theorem setupMVC_transcript TrimSpace Run rootPath stdin out s out' s' r :
  cli.setupMVC TrimSpace Run rootPath stdin out s = (out', s', r) ->
  setupMVC TrimSpace Run rootPath stdin s = (s', r) /\
  ((exists line sA,
      stdin = Ok line /\
      Run ["go"; "mod"; "init"; TrimSpace line] rootPath s = (sA, Ok tt) /\
      out' = out ++ [prompt;
                     "Initialized Go module: " +:+ TrimSpace line +:+ String LF EmptyString]) \/
   (out' = out ++ [prompt] /\
    exists e, r = Err e /\
      (stdin = Err e \/
       exists line sA cause,
         stdin = Ok line /\
         Run ["go"; "mod"; "init"; TrimSpace line] rootPath s = (sA, Err cause) /\
         e = fmt.Errorf "failed to initialize go module: %v" cause))).
Proof.
  rewrite cli_setupMVC_unfold. destruct stdin as [line|e].
  - rewrite setupMVC_unfold.
    destruct (Run _ rootPath s) as [s1 [[]|err]] eqn:ER.
    + intros [= <- <- <-]. split; [by destruct (scaffold _ _ s1)|].
      left. by exists line, s1.
    + intros [= <- <- <-]. split; [done|]. right. split; [done|].
      eexists. split; [done|]. right. by exists line, s1, err.
  - intros [= <- <- <-]. split; [done|]. right. split; [done|].
    exists e. split; [done|by left].
Qed.

Lemma setupMVC_transcript_witness :
  setupMVC trim_ascii go_tool example_root (Ok example_line) project_with_locked_cmd
  = ((cli.setupMVC trim_ascii go_tool example_root (Ok example_line) [] project_with_locked_cmd).1.2,
     (cli.setupMVC trim_ascii go_tool example_root (Ok example_line) [] project_with_locked_cmd).2) /\
  ((exists line sA,
      Ok example_line = Ok line /\
      go_tool ["go"; "mod"; "init"; trim_ascii line] example_root project_with_locked_cmd
        = (sA, Ok tt) /\
      (cli.setupMVC trim_ascii go_tool example_root (Ok example_line) [] project_with_locked_cmd).1.1
      = [] ++ [prompt;
               "Initialized Go module: " +:+ trim_ascii line +:+ String LF EmptyString]) \/
   ((cli.setupMVC trim_ascii go_tool example_root (Ok example_line) [] project_with_locked_cmd).1.1
    = [] ++ [prompt] /\
    exists e,
      (cli.setupMVC trim_ascii go_tool example_root (Ok example_line) [] project_with_locked_cmd).2
      = Err e /\
      (Ok example_line = Err e \/
       exists line sA cause,
         Ok example_line = Ok line /\
         go_tool ["go"; "mod"; "init"; trim_ascii line] example_root project_with_locked_cmd
           = (sA, Err cause) /\
         e = fmt.Errorf "failed to initialize go module: %v" cause))).
Proof.
  apply (setupMVC_transcript trim_ascii go_tool example_root (Ok example_line) []
           project_with_locked_cmd).
  by_running.
Defined.

(** X11.  [deleteMVC] prints [Deleted go.mod file.] exactly when there
    was a manifest before the call and the call returned [nil]; the
    manifest is then gone.  It prints nothing else, and file system and
    outcome are those of the function without its message. *)
Theorem deleteMVC_reports_manifest rootPath out s out' s' r :
  wf s ->
  cli.deleteMVC rootPath out s = (out', s', r) ->
  deleteMVC rootPath s = (s', r) /\
  ((out' = out ++ ["Deleted go.mod file." +:+ String LF EmptyString] /\
    is_Some (s !! (rootPath ++ ["go.mod"])) /\
    s' !! (rootPath ++ ["go.mod"]) = None /\ r = Ok tt) \/
   (out' = out /\ (s !! (rootPath ++ ["go.mod"]) = None \/ exists e, r = Err e))).
Proof.
  intros Hwf. rewrite cli_deleteMVC_unfold, deleteMVC_unfold.
  destruct (for_each _ delete_dirs s) as [s1 [[]|e]] eqn:Eloop.
  - destruct (RemoveAll_loop_shrinks rootPath delete_dirs (fun d H => H) _ _ _ Eloop)
      as [Hsub Hfr].
    assert (Hwf1 : wf s1).
    { assert (Hdec : decays s s1); [|by apply Hdec].
      eapply (steps_for_each (R := decays)); [|exact Eloop].
      intros d _. apply RemoveAll_decays. }
    destruct (resolve s1 _) as [e|n] eqn:Hr.
    + intros [= <- <- <-]. split; [done|]. right. split; [done|]. left.
      rewrite <- Hfr; [by eapply resolve_inl|].
      intros (d & Hd & Hpre). by apply (go_mod_not_below_dir rootPath d).
    + apply walk_inr in Hr. simpl in Hr.
      destruct (os.Remove _ s1) as [s2 [[]|e]] eqn:Erm; intros [= <- <- <-].
      * split; [done|]. left. split; [done|]. split; [|split; [by eapply Remove_Ok|done]].
        exists n. by eapply lookup_weaken.
      * split; [done|]. right. eauto.
  - intros [= <- <- <-]. split; [done|]. right. eauto.
Qed.

Lemma deleteMVC_reports_manifest_witness :
  deleteMVC example_root provisioned = (empty_project, Ok tt) /\
  (([] ++ ["Deleted go.mod file." +:+ String LF EmptyString]
    = [] ++ ["Deleted go.mod file." +:+ String LF EmptyString] /\
    is_Some (provisioned !! (example_root ++ ["go.mod"])) /\
    empty_project !! (example_root ++ ["go.mod"]) = None /\ Ok tt = Ok tt) \/
   ([] ++ ["Deleted go.mod file." +:+ String LF EmptyString] = [] /\
    (provisioned !! (example_root ++ ["go.mod"]) = None \/ exists e, Ok tt = Err e))).
Proof.
  apply (deleteMVC_reports_manifest example_root [] provisioned
           ([] ++ ["Deleted go.mod file." +:+ String LF EmptyString]) empty_project (Ok tt)).
  - by_running.
  - by_running.
Defined.



(** X13.  With a path in [-delete] only (no [-h], no [-create]),
    [main] runs [deleteMVC] on that path: it prints
    [Deleting MVC structure...] first and the verdict last, the success
    line exactly when [deleteMVC] returned [nil], otherwise the error;
    the file system is the one [deleteMVC] leaves, a part of the one
    before.  Standard input is not read. *)
Theorem main_delete TrimSpace Run locate Error (fl : flags) stdin out s out' s' r :
  helpFlag fl = false ->
  createFlag fl = EmptyString ->
  deleteFlag fl <> EmptyString ->
  cli.main TrimSpace Run locate Error fl stdin out s = (out', s', r) ->
  r = Ok tt /\
  s' = (deleteMVC (locate (deleteFlag fl)) s).1 /\
  s' ⊆ s /\
  (forall stdin', cli.main TrimSpace Run locate Error fl stdin' out s = (out', s', r)) /\
  exists mid,
    out' = out ++ ["Deleting MVC structure..." +:+ String LF EmptyString] ++ mid ++
           [match (deleteMVC (locate (deleteFlag fl)) s).2 with
            | Ok _ => "MVC structure deleted successfully!" +:+ String LF EmptyString
            | Err e => "Error deleting MVC structure: " +:+ Error e +:+ String LF EmptyString
            end].
Proof.
  intros Hh Hc Hd. unfold cli.main. rewrite Hh, Hc.
  apply String.eqb_neq in Hd. rewrite Hd. cbn [negb String.eqb].
  unfold io_bind, io_try, stdout.Println, stdout.Printf, stdout.Print.
  destruct (cli_deleteMVC_erase (locate (deleteFlag fl))
              (out ++ ["Deleting MVC structure..." +:+ String LF EmptyString]) s)
    as [mid Em].
  rewrite Em.
  destruct (deleteMVC (locate (deleteFlag fl)) s) as [s1 r1] eqn:E.
  destruct (deleteMVC_shrinks _ _ _ _ E) as [Hsub _].
  cbn [fst snd]. destruct r1 as [[]|e]; intros [= <- <- <-].
  - do 4 (split; [done|]). exists mid. by rewrite <- !app_assoc.
  - do 4 (split; [done|]). exists mid. rewrite <- !app_assoc. reflexivity.
Qed.

Lemma main_delete_witness :
  Ok tt = Ok tt /\
  empty_project = (deleteMVC (absolute (deleteFlag (Flags EmptyString "/tmp/p1" false))) provisioned).1 /\
  empty_project ⊆ provisioned /\
  (forall stdin',
     cli.main trim_ascii go_tool absolute error_text (Flags EmptyString "/tmp/p1" false) stdin' []
       provisioned
     = (["Deleting MVC structure..." +:+ String LF EmptyString;
         "Deleted go.mod file." +:+ String LF EmptyString;
         "MVC structure deleted successfully!" +:+ String LF EmptyString],
        empty_project, Ok tt)) /\
  exists mid,
    ["Deleting MVC structure..." +:+ String LF EmptyString;
     "Deleted go.mod file." +:+ String LF EmptyString;
     "MVC structure deleted successfully!" +:+ String LF EmptyString]
    = [] ++ ["Deleting MVC structure..." +:+ String LF EmptyString] ++ mid ++
      [match (deleteMVC (absolute (deleteFlag (Flags EmptyString "/tmp/p1" false))) provisioned).2 with
       | Ok _ => "MVC structure deleted successfully!" +:+ String LF EmptyString
       | Err e => "Error deleting MVC structure: " +:+ error_text e +:+ String LF EmptyString
       end].
Proof.
  apply (main_delete trim_ascii go_tool absolute error_text (Flags EmptyString "/tmp/p1" false)
           (Err ReadError) [] provisioned).
  - reflexivity.
  - reflexivity.
  - discriminate.
  - by_running.
Defined.


(** *** Failures of the skeleton phase and the generated sources *)

#[global] Instance adds_dirs_refl : Reflexive adds_dirs.
Proof. intros s q n Hq. by left. Qed.

#[global] Instance adds_dirs_trans : Transitive adds_dirs.
Proof.
  intros s1 s2 s3 H12 H23 q n Hq.
  destruct (H23 _ _ Hq) as [H2|?]; [|by right]. by apply H12.
Qed.








(** X15.  Whatever the module path, each of the six generated files
    starts with the package clause of its place: [package main] for the
    entry point in [cmd/api], otherwise the name of the directory the
    file is put in. *)
Theorem generated_files_declare_their_package (projectName : string) :
  Forall (fun f => gostrings.HasPrefix f.2
                     ("package " +:+ package_of f.1 +:+ String LF EmptyString) = true)
    (setup_files projectName).
Proof.
  unfold setup_files. repeat (constructor; [vm_compute; reflexivity|]). constructor.
Qed.

